(** * FakeAnalogWrite: software PWM on a single timer interrupt

    A shallow embedding of [examples/FakeAnalogWrite/FakeAnalogWrite.ino]:
    the slot table [curISRTimerData], the per-slot tick routine
    [doingSomething], the interrupt handler [TimerHandler] and the
    allocator / updater [fakeAnalogWrite].

    The sketch is built with [USING_MAPPING_TABLE] set to [false], so the
    blocks between [#if USING_MAPPING_TABLE] and [#else] are not compiled;
    the embedding follows the [#else] branches.  [LOCAL_DEBUG] is 1, so the
    [Serial.print] lines guarded by [LOCAL_DEBUG > 0] are part of the
    program and show up as events. *)

From stdpp Require Import base numbers list.

Local Open Scope Z_scope.

(** ** Constants of the sketch *)

Definition MAX_PWM_VALUE : Z := 256.
Definition LED_BUILTIN : Z := 13.
Definition TIMER2_FREQUENCY_HZ : Z := 10000.
Definition LED_TOGGLE_INTERVAL_MS : Z := 500.
Definition NUMBER_ISR_TIMERS : nat := 16.

(** Conversions to the fixed-width parameter types. *)
Definition to_uint16 (z : Z) : Z := z mod 65536.
Definition to_uint32 (z : Z) : Z := z mod 4294967296.

(** ** The slot record

    [int16_t PWM_Value; uint16_t PWM_PremapValue; uint16_t pin;
     int16_t countPWM; bool beingUsed]. *)

Record ISRTimerData : Type := mkSlot {
  PWM_Value : Z;
  PWM_PremapValue : Z;
  pin : Z;
  countPWM : Z;
  beingUsed : bool
}.

Definition zeroSlot : ISRTimerData := mkSlot 0 0 0 0 false.

#[global] Instance ISRTimerData_inhabited : Inhabited ISRTimerData :=
  populate zeroSlot.

Definition set_PWM_Value (v : Z) (s : ISRTimerData) : ISRTimerData :=
  mkSlot v (PWM_PremapValue s) (pin s) (countPWM s) (beingUsed s).
Definition set_PWM_PremapValue (v : Z) (s : ISRTimerData) : ISRTimerData :=
  mkSlot (PWM_Value s) v (pin s) (countPWM s) (beingUsed s).
Definition set_pin (v : Z) (s : ISRTimerData) : ISRTimerData :=
  mkSlot (PWM_Value s) (PWM_PremapValue s) v (countPWM s) (beingUsed s).
Definition set_countPWM (v : Z) (s : ISRTimerData) : ISRTimerData :=
  mkSlot (PWM_Value s) (PWM_PremapValue s) (pin s) v (beingUsed s).
Definition set_beingUsed (b : bool) (s : ISRTimerData) : ISRTimerData :=
  mkSlot (PWM_Value s) (PWM_PremapValue s) (pin s) (countPWM s) b.

(** ** Observable effects

    The digital I/O layer and the serial console are outside the sketch;
    calls into them are recorded, newest first. *)

Inductive Event : Type :=
  | DigitalWrite (p : Z) (level : bool)
  | PinModeOutput (p : Z)
  | SerialIgnore (i : nat)
  | SerialUpdate (i : nat) (p value mapped : Z)
  | SerialAdd (i : nat) (p value mapped : Z).

(** The global state: the slot table, the two [static] locals of
    [TimerHandler], and the record of I/O calls. *)

Record World : Type := mkWorld {
  curISRTimerData : list ISRTimerData;
  toggle : bool;
  timeRun : Z;
  io : list Event
}.

(** [curISRTimerData[i].field = ...] *)
Definition store (i : nat) (f : ISRTimerData -> ISRTimerData) (w : World) : World :=
  mkWorld (alter f i (curISRTimerData w)) (toggle w) (timeRun w) (io w).

Definition emit (e : Event) (w : World) : World :=
  mkWorld (curISRTimerData w) (toggle w) (timeRun w) (e :: io w).

(** The level last written to pin [p], if any. *)
Fixpoint pinLevel (evs : list Event) (p : Z) : option bool :=
  match evs with
  | [] => None
  | DigitalWrite q l :: rest => if q =? p then Some l else pinLevel rest p
  | _ :: rest => pinLevel rest p
  end.

(** ** Tick dispatcher *)

(** [void doingSomething(int index)].  The sum [countPWM + 1] is taken in
    [int]; its remainder by [MAX_PWM_VALUE] has magnitude below 256, so
    storing it back into the [int16_t] field does not change it. *)
Definition doingSomething (index : nat) (w : World) : World :=
  let s := curISRTimerData w !!! index in
  let w1 :=
    if beingUsed s && (0 <? PWM_Value s) && negb (pin s =? 0) then
      if countPWM s =? 0 then
        if 0 <? PWM_Value s then emit (DigitalWrite (pin s) true) w
        else emit (DigitalWrite (pin s) false) w
      else if countPWM s =? PWM_Value s then
        emit (DigitalWrite (pin s) false) w
      else w
    else w in
  store index (set_countPWM (Z.rem (countPWM s + 1) MAX_PWM_VALUE)) w1.

(** The [for] loop of [TimerHandler] over the slot indices. *)
Definition dispatchSlots (lo n : nat) (w : World) : World :=
  foldl (fun acc i => doingSomething i acc) w (seq lo n).

(** The second half of [TimerHandler]: [++timeRun] on the [uint32_t]
    counter and the LED toggle every
    [(LED_TOGGLE_INTERVAL_MS * TIMER2_FREQUENCY_HZ) / 1000] ticks. *)
Definition heartbeat (w : World) : World :=
  let t := to_uint32 (timeRun w + 1) in
  if t =? (LED_TOGGLE_INTERVAL_MS * TIMER2_FREQUENCY_HZ) `div` 1000 then
    mkWorld (curISRTimerData w) (negb (toggle w)) 0
            (DigitalWrite LED_BUILTIN (toggle w) :: io w)
  else
    mkWorld (curISRTimerData w) (toggle w) t (io w).

(** [void TimerHandler(void)]: the slot loop, then the LED heartbeat. *)
Definition TimerHandler (w : World) : World :=
  heartbeat (dispatchSlots 0 NUMBER_ISR_TIMERS w).

(** ** Slot allocator / updater *)

(** [(value < MAX_PWM_VALUE) ? value : MAX_PWM_VALUE] *)
Definition clampValue (value : Z) : Z :=
  if value <? MAX_PWM_VALUE then value else MAX_PWM_VALUE.

(** [for (i = lo; i < lo + fuel; i++) if (c i) { ...; return; }]:
    the first index at which the loop body is entered. *)
Fixpoint scan (c : nat -> bool) (i fuel : nat) : option nat :=
  match fuel with
  | O => None
  | S fuel' => if c i then Some i else scan c (S i) fuel'
  end.

Definition findPin (p : Z) (t : list ISRTimerData) : option nat :=
  scan (fun i => beingUsed (t !!! i) && (pin (t !!! i) =? p)) 0 NUMBER_ISR_TIMERS.

Definition findFree (t : list ISRTimerData) : option nat :=
  scan (fun i => negb (beingUsed (t !!! i))) 0 NUMBER_ISR_TIMERS.

(** One statement of the body, as a state transformer. *)
Definition Stmt : Type := World -> World.

(** The statements [fakeAnalogWrite(pin, value)] executes, in program
    order.  Which path is taken depends on [beingUsed], [pin],
    [PWM_PremapValue] and [PWM_Value] only. *)
Definition fakeAnalogWrite_body (p value : Z) (w : World) : list Stmt :=
  let t := curISRTimerData w in
  let localValue := clampValue value in
  match findPin p t with
  | Some i =>
      if PWM_PremapValue (t !!! i) =? localValue then
        [ emit (SerialIgnore i) ]
      else
        (if 0 <=? PWM_Value (t !!! i) then
           store i (set_PWM_PremapValue localValue) ::
           (if (localValue =? 0) || (localValue =? MAX_PWM_VALUE - 1) then
              [ store i (set_PWM_Value localValue) ]
            else
              [ store i (set_PWM_Value localValue);
                fun w' => emit (SerialUpdate i p value
                                  (PWM_Value (curISRTimerData w' !!! i))) w' ])
         else
           [ store i (set_beingUsed false);
             store i (set_pin 0);
             store i (set_PWM_Value 0) ])
        ++ [ store i (set_countPWM 0) ]
  | None =>
      match findFree t with
      | Some i =>
          [ store i (set_beingUsed true);
            store i (set_pin p) ]
          ++ (if (localValue =? 0) || (localValue =? MAX_PWM_VALUE - 1) then
                [ store i (set_PWM_Value localValue) ]
              else
                [ store i (set_PWM_PremapValue localValue);
                  store i (set_PWM_Value localValue) ])
          ++ [ store i (set_countPWM 0);
               emit (PinModeOutput p);
               fun w' => emit (SerialAdd i p value
                                 (PWM_Value (curISRTimerData w' !!! i))) w' ]
      | None => []
      end
  end.

(** Running the statements with the timer interrupt firing [n] times
    before each one, [n] taken from the schedule (0 once it is used up).
    The body of [fakeAnalogWrite] contains no [noInterrupts()], [cli()] or
    detach call, so every statement boundary is a preemption point.  The
    handler changes only [countPWM], its two statics and the I/O record,
    none of which selects the path, so the statement list fixed on entry
    is the one that runs whatever the schedule. *)
Fixpoint exec_irq (sched : list nat) (ss : list Stmt) (w : World) : World :=
  match ss with
  | [] => w
  | s :: ss' =>
      exec_irq (tail sched) ss' (s (Nat.iter (hd O sched) TimerHandler w))
  end.

(** [void fakeAnalogWrite(uint16_t pin, uint16_t value)], not preempted. *)
Definition fakeAnalogWrite (p value : Z) (w : World) : World :=
  exec_irq [] (fakeAnalogWrite_body p value w) w.

(** ** Start-up and call sequences *)

(** The static initialiser of the table and of the [static] locals. *)
Definition boot : World :=
  mkWorld (replicate NUMBER_ISR_TIMERS zeroSlot) false 0 [].

(** [void setup()]: the LED pin mode and the reset loop over the table. *)
Definition setup (w : World) : World :=
  foldl (fun acc i =>
           store i (set_PWM_Value 0)
             (store i (set_pin 0) (store i (set_beingUsed false) acc)))
        (emit (PinModeOutput LED_BUILTIN) w) (seq 0 NUMBER_ISR_TIMERS).

Definition initial : World := setup boot.

(** What the rest of the program can do to the state: call
    [fakeAnalogWrite] (arguments converted to [uint16_t]) or be
    interrupted by the timer. *)
Inductive Call : Type :=
  | Request (p value : Z)
  | Tick.

Definition step (c : Call) (w : World) : World :=
  match c with
  | Request p value => fakeAnalogWrite (to_uint16 p) (to_uint16 value) w
  | Tick => TimerHandler w
  end.

Definition run (cs : list Call) (w : World) : World :=
  foldl (fun acc c => step c acc) w cs.

Definition ticks (n : nat) (w : World) : World := run (replicate n Tick) w.

(** Number of ticks [k] in [start, start + len) after which pin [p] is high. *)
Definition highTicks (p : Z) (w : World) (start len : nat) : nat :=
  length (filter (fun k => pinLevel (io (ticks (S k) w)) p = Some true)
                 (seq start len)).

(** The same count taken along one run: the number of the next [len]
    ticks after which pin [p] is high. *)
Fixpoint countHigh (p : Z) (w : World) (len : nat) : nat :=
  match len with
  | O => O
  | S len' =>
      let w' := TimerHandler w in
      ((if decide (pinLevel (io w') p = Some true) then 1 else 0)
       + countHigh p w' len')%nat
  end.

(** ** Net effects and invariants

    Closed forms of what one request and one tick do to a slot, and
    the invariants of the states reachable from start-up.  These are
    what the proofs below work with; each closed form is proved equal
    to the statement-level definition above. *)

(** [localValue == 0 || localValue == MAX_PWM_VALUE - 1] *)
Definition isBoundary (lv : Z) : bool :=
  (lv =? 0) || (lv =? MAX_PWM_VALUE - 1).

(** Net effect of the update path on the slot it found. *)
Definition updateSlot (lv : Z) (s : ISRTimerData) : ISRTimerData :=
  if PWM_PremapValue s =? lv then s
  else if 0 <=? PWM_Value s then mkSlot lv lv (pin s) 0 (beingUsed s)
  else mkSlot 0 (PWM_PremapValue s) 0 0 false.

(** Net effect of the allocation path on the free slot it took. *)
Definition allocSlot (p lv : Z) (s : ISRTimerData) : ISRTimerData :=
  mkSlot lv (if isBoundary lv then PWM_PremapValue s else lv) p 0 true.

Definition requestTable (p value : Z) (t : list ISRTimerData) : list ISRTimerData :=
  match findPin p t with
  | Some i => alter (updateSlot (clampValue value)) i t
  | None =>
      match findFree t with
      | Some i => alter (allocSlot p (clampValue value)) i t
      | None => t
      end
  end.

(** The phase step of one slot. *)
Definition advance (s : ISRTimerData) : ISRTimerData :=
  set_countPWM (Z.rem (countPWM s + 1) MAX_PWM_VALUE) s.

(** The I/O call [doingSomething] makes for a slot in state [s]. *)
Definition slotWrite (s : ISRTimerData) : list Event :=
  if beingUsed s && (0 <? PWM_Value s) && negb (pin s =? 0) then
    if countPWM s =? 0 then [DigitalWrite (pin s) true]
    else if countPWM s =? PWM_Value s then [DigitalWrite (pin s) false]
    else []
  else [].

(** Pin [q] is driven by slot [i] and by no other slot. *)
Definition drivenBy (q : Z) (i : nat) (t : list ISRTimerData) : Prop :=
  (i < NUMBER_ISR_TIMERS)%nat ∧
  beingUsed (t !!! i) = true ∧ pin (t !!! i) = q ∧
  ∀ j, j ≠ i → beingUsed (t !!! j) = true → pin (t !!! j) ≠ q.

(** Per-slot facts that hold after any sequence of calls.  The last
    two record what the allocation path leaves behind: a free slot is
    still zeroed, and the only way [PWM_PremapValue] can differ from
    [PWM_Value] is an allocation with the boundary value
    [MAX_PWM_VALUE - 1], which does not store [PWM_PremapValue]. *)
Definition slot_ok (s : ISRTimerData) : Prop :=
  0 ≤ countPWM s < MAX_PWM_VALUE ∧
  0 ≤ PWM_Value s ≤ MAX_PWM_VALUE ∧
  (PWM_PremapValue s = PWM_Value s ∨
   (PWM_Value s = MAX_PWM_VALUE - 1 ∧ PWM_PremapValue s = 0)) ∧
  (beingUsed s = false → PWM_Value s = 0 ∧ PWM_PremapValue s = 0).

Definition table_ok (t : list ISRTimerData) : Prop :=
  length t = NUMBER_ISR_TIMERS ∧
  (∀ i, (i < NUMBER_ISR_TIMERS)%nat → slot_ok (t !!! i)) ∧
  (∀ i j, (i < NUMBER_ISR_TIMERS)%nat → (j < NUMBER_ISR_TIMERS)%nat →
          beingUsed (t !!! i) = true → beingUsed (t !!! j) = true →
          pin (t !!! i) = pin (t !!! j) → i = j).

(** The level of a driven pin agrees with the phase of its slot once the
    slot has been ticked since its last reset. *)
Definition coherent (w : World) : Prop :=
  ∀ i, (i < NUMBER_ISR_TIMERS)%nat →
    let s := curISRTimerData w !!! i in
    beingUsed s = true → pin s ≠ 0 → pin s ≠ LED_BUILTIN →
    0 < PWM_Value s → countPWM s ≠ 0 →
    pinLevel (io w) (pin s) = Some (countPWM s - 1 <? PWM_Value s).

Definition world_ok (w : World) : Prop :=
  table_ok (curISRTimerData w) ∧ coherent w.

(** Tick phases [j] (counted from a phase-0 tick) at which the pin is high. *)
Definition inDuty (v : Z) (j : nat) : Prop :=
  Z.of_nat j `mod` MAX_PWM_VALUE < v.

#[global] Instance inDuty_dec v j : Decision (inDuty v j).
Proof. unfold inDuty. apply _. Defined.

(** Two slots agree on everything but [countPWM]. *)
Definition sameBinding (s s' : ISRTimerData) : Prop :=
  beingUsed s' = beingUsed s ∧ pin s' = pin s ∧
  PWM_Value s' = PWM_Value s ∧ PWM_PremapValue s' = PWM_PremapValue s.

(** A table in which slot 1 is bound to pin 5 and marked for release. *)
Definition releaseExample : World :=
  mkWorld (mkSlot 40 40 3 7 true :: mkSlot (-1) 77 5 3 true
             :: replicate 14 zeroSlot)
          false 0 [].

(** A table in which slot 1 is bound to pin 5 and marked for release, its
    last request having been one that the clamp stored as
    [MAX_PWM_VALUE]. *)
Definition releaseSaturated : World :=
  mkWorld (mkSlot 40 40 3 7 true :: mkSlot (-1) 256 5 3 true
             :: replicate 14 zeroSlot)
          false 0 [].

(** Closed goals about concrete runs: split the conjunctions, evaluate. *)
Ltac split_all := repeat match goal with |- _ ∧ _ => split end.
Ltac by_evaluation := cbv zeta; split_all; vm_compute; reflexivity.
Ltac count_ticks lem := rewrite ?lem; vm_compute; first [reflexivity | discriminate].

(** ** Views of a call sequence and of the table *)

(** The fields of a slot other than its phase. *)
Definition binding (s : ISRTimerData) : bool * Z * Z * Z :=
  (beingUsed s, pin s, PWM_Value s, PWM_PremapValue s).

Definition bindings (w : World) : list (bool * Z * Z * Z) :=
  binding <$> curISRTimerData w.

(** The I/O record without the [digitalWrite] calls: the [pinMode] and
    [Serial] calls, newest first. *)
Fixpoint controlLog (evs : list Event) : list Event :=
  match evs with
  | [] => []
  | DigitalWrite _ _ :: rest => controlLog rest
  | e :: rest => e :: controlLog rest
  end.

(** What a request settles: the bindings and the control calls made. *)
Definition settled (w : World) : list (bool * Z * Z * Z) * list Event :=
  (bindings w, controlLog (io w)).

(** In-use flag and pin of every slot, in table order. *)
Definition usedPins (t : list ISRTimerData) : list (bool * Z) :=
  (λ s, (beingUsed s, pin s)) <$> t.

(** The requests of a call sequence, without its ticks. *)
Fixpoint requestsOf (cs : list Call) : list Call :=
  match cs with
  | [] => []
  | Request p value :: cs' => Request p value :: requestsOf cs'
  | Tick :: cs' => requestsOf cs'
  end.

Fixpoint tickCount (cs : list Call) : Z :=
  match cs with
  | [] => 0
  | Request _ _ :: cs' => tickCount cs'
  | Tick :: cs' => 1 + tickCount cs'
  end.

(** The pins named by the requests, as [fakeAnalogWrite] receives them. *)
Fixpoint requestedPins (cs : list Call) : list Z :=
  match cs with
  | [] => []
  | Request p _ :: cs' => to_uint16 p :: requestedPins cs'
  | Tick :: cs' => requestedPins cs'
  end.

(** The first [NUMBER_ISR_TIMERS] distinct pins of a list, in order of
    first occurrence. *)
Definition firstPins (ps : list Z) : list Z :=
  foldl (λ acc p, if decide (p ∈ acc) then acc
                  else if decide (length acc < NUMBER_ISR_TIMERS)%nat then acc ++ [p]
                  else acc) [] ps.

(** Whether an I/O call is a [digitalWrite] or [pinMode] on pin [q]. *)
Definition touches (q : Z) (e : Event) : bool :=
  match e with
  | DigitalWrite p _ | PinModeOutput p => p =? q
  | _ => false
  end.

(** The table in which the pins of [ps] occupy the first slots, in
    order, and the other slots are free: in-use flag and pin per slot. *)
Definition tableShape (ps : list Z) : list (bool * Z) :=
  ((λ p, (true, p)) <$> ps)
  ++ replicate (NUMBER_ISR_TIMERS - length ps) (false, 0).

(** Ticks between two toggles of the LED. *)
Definition togglePeriod : Z :=
  (LED_TOGGLE_INTERVAL_MS * TIMER2_FREQUENCY_HZ) `div` 1000.

(** ** The demo loop

    [loop()] steps [i] from 0 to [MAX_PWM_VALUE / DIVIDER] and in each
    round calls [fakeAnalogWrite(pin, i * DIVIDER)] for sixteen pins, then
    waits; the Arduino core calls [loop()] again when it returns.  The
    pin numbers depend on the board ([22 .. 37] on a Mega, [2 .. 12] and
    [A0 .. A4] otherwise), so they are a parameter.  The waits let the
    timer tick; how often is not fixed by the sketch, so the ticks are
    left to the call sequence in which the requests are embedded. *)
Definition DIVIDER : Z := 5.

Definition roundsPerLoop : nat := Z.to_nat (MAX_PWM_VALUE `div` DIVIDER + 1).

(** The sixteen calls of round [i] of the [for] loop. *)
Definition loopRound (pins : list Z) (i : nat) : list Call :=
  (λ p, Request p (Z.of_nat i * DIVIDER)) <$> pins.

(** The requests of the first [m] rounds since start-up. *)
Definition demoRounds (pins : list Z) (m : nat) : list Call :=
  concat ((λ r, loopRound pins (r `mod` roundsPerLoop)) <$> seq 0 m).

(** The slot of a pin whose last request, with value [v], took effect and
    has not been ticked since. *)
Definition demoSlot (v p : Z) : ISRTimerData := mkSlot v v p 0 true.

Definition megaPins : list Z :=
  [22; 23; 24; 25; 26; 27; 28; 29; 30; 31; 32; 33; 34; 35; 36; 37].

(** A statement whose effect on what is settled is a function of what
    was settled before it. *)
Definition respectsSettled (s : Stmt) : Prop :=
  ∀ w w', settled w = settled w' → settled (s w) = settled (s w').

(** * Properties *)

Example initial_table :
  curISRTimerData initial = replicate 16%nat zeroSlot.
Proof. reflexivity. Qed.

Example request_5_128 :
  curISRTimerData (run [Request 5 128] initial) !!! 0%nat
  = mkSlot 128 128 5 0 true.
Proof. reflexivity. Qed.


(** ** The two scans *)

Lemma scan_Some c lo fuel i :
  scan c lo fuel = Some i →
  (lo ≤ i < lo + fuel)%nat ∧ c i = true ∧
  ∀ j, (lo ≤ j < i)%nat → c j = false.
Proof.
  revert lo. induction fuel as [|fuel IH]; intros lo; simpl; [done|].
  destruct (c lo) eqn:Hc.
  - intros [= <-]. repeat split; [lia | lia | done | intros; lia].
  - intros H. destruct (IH _ H) as (Hr & Hi & Hlt).
    repeat split; [lia | lia | done |].
    intros j Hj. destruct (decide (j = lo)) as [->|]; [done|].
    apply Hlt. lia.
Qed.

Lemma scan_None c lo fuel :
  scan c lo fuel = None → ∀ j, (lo ≤ j < lo + fuel)%nat → c j = false.
Proof.
  revert lo. induction fuel as [|fuel IH]; intros lo; simpl; [intros; lia|].
  destruct (c lo) eqn:Hc; [done|].
  intros H j Hj. destruct (decide (j = lo)) as [->|]; [done|].
  apply (IH _ H). lia.
Qed.

Lemma scan_first c lo fuel i :
  (lo ≤ i < lo + fuel)%nat → c i = true →
  (∀ j, (lo ≤ j < i)%nat → c j = false) →
  scan c lo fuel = Some i.
Proof.
  intros Hr Hi Hlt. destruct (scan c lo fuel) as [k|] eqn:Hs.
  - destruct (scan_Some _ _ _ _ Hs) as (Hk & Hck & Hklt).
    f_equal. destruct (lt_eq_lt_dec k i) as [[Hlt'| ->]|Hgt]; [|done|].
    + rewrite Hlt in Hck by lia. done.
    + rewrite Hklt in Hi by lia. done.
  - rewrite (scan_None _ _ _ Hs i) in Hi by lia. done.
Qed.

(** ** What a request does to the table *)

Lemma alter_fixed {A} (f : A → A) (l : list A) i :
  (∀ x, l !! i = Some x → f x = x) → alter f i l = l.
Proof.
  intros H. rewrite <-(list_alter_id id l i) at 2 by done.
  by apply list_alter_ext.
Qed.

Lemma fakeAnalogWrite_table p value w :
  curISRTimerData (fakeAnalogWrite p value w)
  = requestTable p value (curISRTimerData w).
Proof.
  unfold fakeAnalogWrite, fakeAnalogWrite_body, requestTable.
  fold (isBoundary (clampValue value)).
  destruct (findPin p (curISRTimerData w)) as [i|].
  - destruct (PWM_PremapValue _ =? _) eqn:Hsame.
    + cbn. symmetry. apply alter_fixed. intros x Hx.
      rewrite (list_lookup_total_correct _ _ _ Hx) in Hsame.
      unfold updateSlot. by rewrite Hsame.
    + destruct (0 <=? PWM_Value _) eqn:Hnn;
        [destruct (isBoundary _)|]; cbn;
        rewrite !list_alter_alter_eq; (apply list_alter_ext; [|done]);
        intros x Hx; rewrite (list_lookup_total_correct _ _ _ Hx) in Hsame, Hnn;
        unfold updateSlot; cbn; by rewrite Hsame, Hnn.
  - destruct (findFree (curISRTimerData w)) as [i|]; [|done].
    unfold allocSlot. destruct (isBoundary _); cbn;
      rewrite !list_alter_alter_eq; by apply list_alter_ext.
Qed.

Lemma fakeAnalogWrite_statics p value w :
  toggle (fakeAnalogWrite p value w) = toggle w ∧
  timeRun (fakeAnalogWrite p value w) = timeRun w.
Proof.
  unfold fakeAnalogWrite, fakeAnalogWrite_body.
  repeat (case_match; cbn; try done).
Qed.

Lemma fakeAnalogWrite_pinLevel p value w q :
  pinLevel (io (fakeAnalogWrite p value w)) q = pinLevel (io w) q.
Proof.
  unfold fakeAnalogWrite, fakeAnalogWrite_body.
  repeat (case_match; cbn; try done).
Qed.

(** ** What a tick does *)

Lemma doingSomething_eq index w :
  doingSomething index w
  = mkWorld (alter advance index (curISRTimerData w)) (toggle w) (timeRun w)
            (slotWrite (curISRTimerData w !!! index) ++ io w).
Proof.
  unfold doingSomething, slotWrite, store, emit.
  set (s := curISRTimerData w !!! index).
  assert (Halter : ∀ t, t = curISRTimerData w →
            alter (set_countPWM (Z.rem (countPWM s + 1) MAX_PWM_VALUE)) index t
            = alter advance index (curISRTimerData w)).
  { intros t ->. apply list_alter_ext; [|done]. intros x Hx.
    unfold s. by rewrite (list_lookup_total_correct _ _ _ Hx). }
  destruct (beingUsed s); cbn [andb]; [|by rewrite Halter].
  destruct (0 <? PWM_Value s) eqn:Hpos; cbn [andb]; [|by rewrite Halter].
  destruct (pin s =? 0); cbn [negb]; [by rewrite Halter|].
  destruct (countPWM s =? 0); [by cbn; rewrite Halter|].
  destruct (countPWM s =? PWM_Value s); by cbn; rewrite Halter.
Qed.

Lemma dispatchSlots_S lo n w :
  dispatchSlots lo (S n) w = dispatchSlots (S lo) n (doingSomething lo w).
Proof. done. Qed.

Lemma dispatchSlots_app lo n m w :
  dispatchSlots lo (n + m) w = dispatchSlots (lo + n) m (dispatchSlots lo n w).
Proof. unfold dispatchSlots. by rewrite seq_app, foldl_app. Qed.

Lemma dispatchSlots_statics lo n w :
  toggle (dispatchSlots lo n w) = toggle w ∧
  timeRun (dispatchSlots lo n w) = timeRun w ∧
  length (curISRTimerData (dispatchSlots lo n w)) = length (curISRTimerData w).
Proof.
  revert lo w. induction n as [|n IH]; intros lo w; [done|].
  rewrite dispatchSlots_S. destruct (IH (S lo) (doingSomething lo w)) as (-> & -> & ->).
  rewrite doingSomething_eq. cbn. by rewrite length_alter.
Qed.

Lemma dispatchSlots_lookup lo n w j :
  curISRTimerData (dispatchSlots lo n w) !! j
  = (if bool_decide (lo ≤ j < lo + n)%nat then advance else id)
      <$> curISRTimerData w !! j.
Proof.
  revert lo w. induction n as [|n IH]; intros lo w.
  - cbn. rewrite bool_decide_eq_false_2 by lia. by rewrite option_fmap_id.
  - rewrite dispatchSlots_S, IH, doingSomething_eq. cbn.
    rewrite list_lookup_alter. case_decide as Hj.
    + subst j. rewrite bool_decide_eq_false_2, bool_decide_eq_true_2 by lia.
      by rewrite option_fmap_id.
    + destruct (curISRTimerData w !! j); [cbn|done].
      repeat case_bool_decide; try done; lia.
Qed.

Lemma dispatchSlots_total_out lo n w j :
  ¬ (lo ≤ j < lo + n)%nat →
  curISRTimerData (dispatchSlots lo n w) !!! j = curISRTimerData w !!! j.
Proof.
  intros Hj. rewrite !list_lookup_total_alt, dispatchSlots_lookup.
  rewrite bool_decide_eq_false_2 by done. by rewrite option_fmap_id.
Qed.

Lemma dispatchSlots_total_in lo n w j :
  (lo ≤ j < lo + n)%nat → (j < length (curISRTimerData w))%nat →
  curISRTimerData (dispatchSlots lo n w) !!! j
  = advance (curISRTimerData w !!! j).
Proof.
  intros Hj Hlen. rewrite !list_lookup_total_alt, dispatchSlots_lookup.
  rewrite bool_decide_eq_true_2 by done.
  destruct (lookup_lt_is_Some_2 _ _ Hlen) as [x ->]. done.
Qed.

Lemma heartbeat_table w :
  curISRTimerData (heartbeat w) = curISRTimerData w.
Proof. unfold heartbeat. cbv zeta. by destruct (_ =? _). Qed.

Lemma heartbeat_level w q :
  q ≠ LED_BUILTIN → pinLevel (io (heartbeat w)) q = pinLevel (io w) q.
Proof.
  intros Hq. unfold heartbeat. cbv zeta. destruct (_ =? _); cbn [io pinLevel]; [|done].
  rewrite (proj2 (Z.eqb_neq LED_BUILTIN q)) by congruence. done.
Qed.

Lemma TimerHandler_table w :
  curISRTimerData (TimerHandler w)
  = curISRTimerData (dispatchSlots 0 NUMBER_ISR_TIMERS w).
Proof. unfold TimerHandler. apply heartbeat_table. Qed.

Lemma TimerHandler_table_fmap w :
  length (curISRTimerData w) = NUMBER_ISR_TIMERS →
  curISRTimerData (TimerHandler w) = advance <$> curISRTimerData w.
Proof.
  intros Hlen. rewrite TimerHandler_table. apply list_eq. intros j.
  rewrite dispatchSlots_lookup, list_lookup_fmap.
  case_bool_decide as Hj; [done|].
  rewrite (lookup_ge_None_2 (curISRTimerData w) j) by lia. done.
Qed.

Lemma TimerHandler_total w j :
  length (curISRTimerData w) = NUMBER_ISR_TIMERS → (j < NUMBER_ISR_TIMERS)%nat →
  curISRTimerData (TimerHandler w) !!! j = advance (curISRTimerData w !!! j).
Proof.
  intros Hlen Hj. rewrite TimerHandler_table.
  apply dispatchSlots_total_in; lia.
Qed.

(** *** Pin levels across a tick *)

Lemma doingSomething_level_other index w q :
  (beingUsed (curISRTimerData w !!! index) = true →
   0 < PWM_Value (curISRTimerData w !!! index) →
   pin (curISRTimerData w !!! index) ≠ q) →
  pinLevel (io (doingSomething index w)) q = pinLevel (io w) q.
Proof.
  intros Hq. rewrite doingSomething_eq. cbn. unfold slotWrite.
  destruct (beingUsed _); [|done].
  destruct (Z.ltb_spec 0 (PWM_Value (curISRTimerData w !!! index))); [|done].
  specialize (Hq eq_refl ltac:(done)).
  repeat (case_match; cbn; try done); lia.
Qed.

Lemma doingSomething_level_self index w :
  let s := curISRTimerData w !!! index in
  beingUsed s = true → 0 < PWM_Value s → pin s ≠ 0 →
  pinLevel (io (doingSomething index w)) (pin s)
  = if countPWM s =? 0 then Some true
    else if countPWM s =? PWM_Value s then Some false
    else pinLevel (io w) (pin s).
Proof.
  intros s Hused Hpos Hpin. rewrite doingSomething_eq. cbn. unfold slotWrite.
  fold s. rewrite Hused. cbn.
  rewrite (proj2 (Z.ltb_lt _ _) Hpos), (proj2 (Z.eqb_neq _ _) Hpin). cbn.
  repeat (case_match; cbn; try done); lia.
Qed.

Lemma dispatchSlots_level_other n lo w q :
  (∀ j, (lo ≤ j < lo + n)%nat →
        beingUsed (curISRTimerData w !!! j) = true →
        0 < PWM_Value (curISRTimerData w !!! j) →
        pin (curISRTimerData w !!! j) ≠ q) →
  pinLevel (io (dispatchSlots lo n w)) q = pinLevel (io w) q.
Proof.
  revert lo w. induction n as [|n IH]; intros lo w Hq; [done|].
  rewrite dispatchSlots_S, IH.
  - apply doingSomething_level_other, Hq. lia.
  - intros j Hj. rewrite doingSomething_eq. cbn.
    rewrite list_lookup_total_alter_ne by lia. apply Hq. lia.
Qed.

Lemma TimerHandler_level w q i :
  drivenBy q i (curISRTimerData w) →
  q ≠ 0 → q ≠ LED_BUILTIN → 0 < PWM_Value (curISRTimerData w !!! i) →
  pinLevel (io (TimerHandler w)) q
  = let s := curISRTimerData w !!! i in
    if countPWM s =? 0 then Some true
    else if countPWM s =? PWM_Value s then Some false
    else pinLevel (io w) q.
Proof.
  intros (Hi & Hused & Hpin & Huniq) Hq0 Hq13 Hpos.
  assert (Hloop : pinLevel (io (dispatchSlots 0 NUMBER_ISR_TIMERS w)) q
     = let s := curISRTimerData w !!! i in
       if countPWM s =? 0 then Some true
       else if countPWM s =? PWM_Value s then Some false
       else pinLevel (io w) q).
  { replace NUMBER_ISR_TIMERS with (i + S (NUMBER_ISR_TIMERS - S i))%nat by lia.
    rewrite dispatchSlots_app, dispatchSlots_S.
    set (w1 := dispatchSlots 0 i w).
    assert (Hsame : curISRTimerData w1 !!! i = curISRTimerData w !!! i)
      by (apply dispatchSlots_total_out; lia).
    rewrite dispatchSlots_level_other.
    - cbn [Nat.add]. subst q. rewrite <-Hsame.
      rewrite doingSomething_level_self by (rewrite Hsame; done).
      cbn zeta. rewrite Hsame.
      unfold w1. rewrite (dispatchSlots_level_other i 0 w); [done|].
      intros j Hj Hu _. apply Huniq; [lia|done].
    - intros j Hj. rewrite doingSomething_eq. cbn.
      rewrite list_lookup_total_alter_ne by lia.
      unfold w1. rewrite dispatchSlots_total_out by lia.
      intros Hu _. apply Huniq; [lia|done]. }
  unfold TimerHandler. rewrite heartbeat_level by done. exact Hloop.
Qed.

(** A pin that no slot drives keeps its level across a tick. *)
Lemma TimerHandler_level_idle w q :
  q ≠ LED_BUILTIN →
  (∀ j, beingUsed (curISRTimerData w !!! j) = true →
        0 < PWM_Value (curISRTimerData w !!! j) →
        pin (curISRTimerData w !!! j) ≠ q) →
  pinLevel (io (TimerHandler w)) q = pinLevel (io w) q.
Proof.
  intros Hq13 Hidle. unfold TimerHandler. rewrite heartbeat_level by done.
  apply dispatchSlots_level_other. intros j _. apply Hidle.
Qed.

(** ** Invariants of the reachable states *)

Lemma clampValue_range value :
  0 ≤ value → 0 ≤ clampValue value ≤ MAX_PWM_VALUE.
Proof. unfold clampValue, MAX_PWM_VALUE. case_match; lia. Qed.

Lemma to_uint16_range z : 0 ≤ to_uint16 z < 65536.
Proof. unfold to_uint16. apply Z.mod_pos_bound. lia. Qed.

Lemma findPin_Some p t i :
  findPin p t = Some i →
  (i < NUMBER_ISR_TIMERS)%nat ∧ beingUsed (t !!! i) = true ∧ pin (t !!! i) = p ∧
  ∀ j, (j < i)%nat → ¬ (beingUsed (t !!! j) = true ∧ pin (t !!! j) = p).
Proof.
  intros H. apply scan_Some in H as (Hr & Hc & Hlt).
  apply andb_true_iff in Hc as [Hu Hp]. apply Z.eqb_eq in Hp.
  repeat split; [lia | done | done |].
  intros j Hj [Hju Hjp]. specialize (Hlt j ltac:(lia)). cbn in Hlt.
  rewrite Hju, Hjp, Z.eqb_refl in Hlt. done.
Qed.

Lemma findPin_None p t :
  findPin p t = None →
  ∀ j, (j < NUMBER_ISR_TIMERS)%nat → beingUsed (t !!! j) = true → pin (t !!! j) ≠ p.
Proof.
  intros H j Hj Hu Hp. pose proof (scan_None _ _ _ H j ltac:(lia)) as Hc.
  cbn in Hc. rewrite Hu, Hp, Z.eqb_refl in Hc. done.
Qed.

Lemma findFree_Some t i :
  findFree t = Some i →
  (i < NUMBER_ISR_TIMERS)%nat ∧ beingUsed (t !!! i) = false ∧
  ∀ j, (j < i)%nat → beingUsed (t !!! j) = true.
Proof.
  intros H. apply scan_Some in H as (Hr & Hc & Hlt).
  apply negb_true_iff in Hc. repeat split; [lia | done |].
  intros j Hj. specialize (Hlt j ltac:(lia)). cbn in Hlt.
  by apply negb_false_iff in Hlt.
Qed.

Lemma findFree_None t :
  findFree t = None → ∀ j, (j < NUMBER_ISR_TIMERS)%nat → beingUsed (t !!! j) = true.
Proof.
  intros H j Hj. pose proof (scan_None _ _ _ H j ltac:(lia)) as Hc.
  cbn in Hc. by apply negb_false_iff in Hc.
Qed.

Lemma updateSlot_ok lv s :
  0 ≤ lv ≤ MAX_PWM_VALUE → slot_ok s → beingUsed s = true →
  slot_ok (updateSlot lv s) ∧
  beingUsed (updateSlot lv s) = true ∧ pin (updateSlot lv s) = pin s.
Proof.
  unfold slot_ok, updateSlot, MAX_PWM_VALUE. intros Hlv (Hc & Hv & Hp & Hf) Hu.
  destruct (PWM_PremapValue s =? lv); [done|].
  destruct (0 <=? PWM_Value s) eqn:Hnn; [|lia].
  cbn. rewrite Hu. repeat split; try lia; try done; by left.
Qed.

Lemma allocSlot_ok p lv s :
  0 ≤ lv ≤ MAX_PWM_VALUE → slot_ok s → beingUsed s = false →
  slot_ok (allocSlot p lv s).
Proof.
  unfold slot_ok, allocSlot, isBoundary, MAX_PWM_VALUE.
  intros Hlv (Hc & Hv & Hp & Hf) Hu. destruct (Hf Hu) as [Hv0 Hp0].
  cbn. repeat split; try lia; try done.
  destruct (lv =? 0) eqn:H0; cbn; [lia|].
  destruct (lv =? 256 - 1) eqn:H255; [|by left].
  right. lia.
Qed.

Lemma requestTable_ok p value t :
  0 ≤ value → table_ok t → table_ok (requestTable p value t).
Proof.
  intros Hval (Hlen & Hslots & Huniq). unfold requestTable.
  pose proof (clampValue_range value Hval) as Hlv.
  destruct (findPin p t) as [i|] eqn:Hfind.
  - apply findPin_Some in Hfind as (Hi & Hu & Hp & _).
    destruct (updateSlot_ok _ _ Hlv (Hslots i Hi) Hu) as (Hok & Hu' & Hp').
    split; [by rewrite length_alter|]. split.
    + intros j Hj. rewrite list_lookup_total_alter.
      case_decide as Hij; [done|]. by apply Hslots.
    + intros j k Hj Hk. rewrite !list_lookup_total_alter.
      repeat case_decide; rewrite ?Hu', ?Hp'; intros; apply Huniq;
        try done; try lia; by destruct_and?; subst.
  - destruct (findFree t) as [i|] eqn:Hfree; [|done].
    apply findFree_Some in Hfree as (Hi & Hu & _).
    pose proof (findPin_None _ _ Hfind) as Hnone.
    split; [by rewrite length_alter|]. split.
    + intros j Hj. rewrite list_lookup_total_alter.
      case_decide as Hij; [|by apply Hslots].
      by apply allocSlot_ok; [|apply Hslots|].
    + intros j k Hj Hk. rewrite !list_lookup_total_alter.
      repeat case_decide; cbn; intros Hju Hku Hpin.
      * destruct_and?; by subst.
      * exfalso. by apply (Hnone k).
      * exfalso. by apply (Hnone j).
      * by apply Huniq.
Qed.

Lemma advance_ok s : slot_ok s → slot_ok (advance s).
Proof.
  unfold slot_ok, advance, MAX_PWM_VALUE. cbn. intros (Hc & Hrest).
  split; [|done]. apply Z.rem_bound_pos; lia.
Qed.

Lemma TimerHandler_ok w :
  table_ok (curISRTimerData w) → table_ok (curISRTimerData (TimerHandler w)).
Proof.
  intros (Hlen & Hslots & Huniq).
  split; [by rewrite TimerHandler_table_fmap, length_fmap|]. split.
  - intros i Hi. rewrite TimerHandler_total by done. by apply advance_ok, Hslots.
  - intros i j Hi Hj. rewrite !TimerHandler_total by done. by apply Huniq.
Qed.

Lemma initial_table_ok : table_ok (curISRTimerData initial).
Proof.
  split; [done|]. split.
  - intros i Hi. change (curISRTimerData initial) with (replicate 16 zeroSlot).
    rewrite lookup_total_replicate_2 by done.
    unfold slot_ok, MAX_PWM_VALUE. cbn. lia.
  - intros i j Hi _. change (curISRTimerData initial) with (replicate 16 zeroSlot).
    by rewrite lookup_total_replicate_2.
Qed.

Lemma step_table_ok c w :
  table_ok (curISRTimerData w) → table_ok (curISRTimerData (step c w)).
Proof.
  destruct c as [p value|]; cbn [step].
  - rewrite fakeAnalogWrite_table. apply requestTable_ok, to_uint16_range.
  - apply TimerHandler_ok.
Qed.

Lemma run_snoc cs c w : run (cs ++ [c]) w = step c (run cs w).
Proof. unfold run. by rewrite foldl_snoc. Qed.

Lemma run_app cs1 cs2 w : run (cs1 ++ cs2) w = run cs2 (run cs1 w).
Proof. unfold run. by rewrite foldl_app. Qed.

Lemma run_table_ok cs w :
  table_ok (curISRTimerData w) → table_ok (curISRTimerData (run cs w)).
Proof.
  revert w. induction cs as [|c cs IH]; intros w Hw; [done|].
  apply (IH (step c w)), step_table_ok, Hw.
Qed.

(** *** Coherence of pin level and phase *)

Lemma advance_count c :
  0 ≤ c < MAX_PWM_VALUE →
  Z.rem (c + 1) MAX_PWM_VALUE = if c =? MAX_PWM_VALUE - 1 then 0 else c + 1.
Proof.
  unfold MAX_PWM_VALUE. intros Hc. destruct (c =? 256 - 1) eqn:Heq.
  - apply Z.eqb_eq in Heq. by subst c.
  - apply Z.eqb_neq in Heq. apply Z.rem_small. lia.
Qed.

Lemma advance_count_mod c :
  0 ≤ c < MAX_PWM_VALUE →
  Z.rem (c + 1) MAX_PWM_VALUE = (c + 1) mod MAX_PWM_VALUE.
Proof. intros Hc. apply Z.rem_mod_nonneg; unfold MAX_PWM_VALUE in *; lia. Qed.

Lemma total_out_of_range (t : list ISRTimerData) j :
  (length t ≤ j)%nat → t !!! j = zeroSlot.
Proof.
  intros Hj. rewrite list_lookup_total_alt, lookup_ge_None_2 by done. done.
Qed.

Lemma table_ok_drivenBy t i :
  table_ok t → (i < NUMBER_ISR_TIMERS)%nat → beingUsed (t !!! i) = true →
  drivenBy (pin (t !!! i)) i t.
Proof.
  intros (Hlen & _ & Huniq) Hi Hu. repeat split; [done..|].
  intros j Hne Hju Hjp. destruct (decide (j < NUMBER_ISR_TIMERS)%nat) as [Hj|Hj].
  - apply Hne. by apply Huniq.
  - rewrite total_out_of_range in Hju by lia. done.
Qed.

Lemma TimerHandler_coherent w :
  world_ok w → coherent (TimerHandler w).
Proof.
  intros [Htab Hcoh] i Hi. pose proof Htab as (Hlen & Hslots & _).
  rewrite TimerHandler_total by done.
  set (s := curISRTimerData w !!! i). cbn.
  intros Hu Hp0 Hp13 Hpos Hcnt.
  destruct (Hslots i Hi) as (Hc & _). fold s in Hc.
  rewrite advance_count in Hcnt |- * by done.
  rewrite (TimerHandler_level w (pin s) i); [|by apply table_ok_drivenBy|done..].
  fold s. cbn zeta. unfold MAX_PWM_VALUE in *.
  destruct (countPWM s =? 256 - 1) eqn:Hlast; [done|].
  destruct (countPWM s =? 0) eqn:Hzero.
  - apply Z.eqb_eq in Hzero. rewrite Hzero. f_equal. symmetry. by apply Z.ltb_lt.
  - destruct (countPWM s =? PWM_Value s) eqn:Hend.
    + apply Z.eqb_eq in Hend. f_equal. symmetry. apply Z.ltb_ge. lia.
    + apply Z.eqb_neq in Hzero, Hend.
      pose proof (Hcoh i Hi Hu Hp0 Hp13 Hpos Hzero) as Hlev. fold s in Hlev.
      rewrite Hlev. f_equal.
      destruct (Z.ltb_spec (countPWM s - 1) (PWM_Value s));
        destruct (Z.ltb_spec (countPWM s + 1 - 1) (PWM_Value s)); try done; lia.
Qed.

Lemma fakeAnalogWrite_coherent p value w :
  0 ≤ value → world_ok w → coherent (fakeAnalogWrite p value w).
Proof.
  intros Hval [Htab Hcoh] j Hj. pose proof Htab as (Hlen & Hslots & _).
  specialize (Hcoh j Hj). cbv zeta in Hcoh |- *.
  rewrite fakeAnalogWrite_table, fakeAnalogWrite_pinLevel.
  unfold requestTable.
  destruct (findPin p (curISRTimerData w)) as [i|] eqn:Hfind.
  - rewrite list_lookup_total_alter. case_decide as Hij; [|by apply Hcoh].
    destruct Hij as [-> _]. unfold updateSlot.
    destruct (PWM_PremapValue _ =? _); [by apply Hcoh|].
    destruct (0 <=? PWM_Value _); cbn; done.
  - destruct (findFree (curISRTimerData w)) as [i|]; [|by apply Hcoh].
    rewrite list_lookup_total_alter. case_decide as Hij; [|by apply Hcoh].
    cbn. done.
Qed.

Lemma step_world_ok c w : world_ok w → world_ok (step c w).
Proof.
  intros Hw. split; [apply step_table_ok, Hw|].
  destruct c as [p value|]; cbn [step].
  - apply fakeAnalogWrite_coherent; [apply to_uint16_range | done].
  - by apply TimerHandler_coherent.
Qed.

Lemma run_world_ok cs w : world_ok w → world_ok (run cs w).
Proof.
  revert w. induction cs as [|c cs IH]; intros w Hw; [done|].
  apply (IH (step c w)), step_world_ok, Hw.
Qed.

Lemma initial_world_ok : world_ok initial.
Proof.
  split; [apply initial_table_ok|]. intros i Hi.
  change (curISRTimerData initial) with (replicate 16 zeroSlot).
  by rewrite lookup_total_replicate_2.
Qed.

Lemma fakeAnalogWrite_world_ok p value w :
  0 ≤ value → world_ok w → world_ok (fakeAnalogWrite p value w).
Proof.
  intros Hval Hw. split; [|by apply fakeAnalogWrite_coherent].
  rewrite fakeAnalogWrite_table. apply requestTable_ok; [done | apply Hw].
Qed.

Lemma ticks_S n w : ticks (S n) w = TimerHandler (ticks n w).
Proof. unfold ticks. by rewrite replicate_S_end, run_snoc. Qed.

Lemma ticks_world_ok n w : world_ok w → world_ok (ticks n w).
Proof. apply run_world_ok. Qed.

Lemma highTicks_countHigh p w start len :
  highTicks p w start len = countHigh p (ticks start w) len.
Proof.
  unfold highTicks. revert start. induction len as [|len IH]; intros start; [done|].
  cbn [seq countHigh]. rewrite filter_cons, <-ticks_S, <-IH.
  by destruct (decide (pinLevel (io (ticks (S start) w)) p = Some true)).
Qed.

(** ** Counting the high ticks of a period *)

Section Counting.
Context (P : nat → Prop) `{!∀ k, Decision (P k)}.

Lemma filter_seq_shift c n start :
  length (filter (λ k, P (c + k)%nat) (seq start n))
  = length (filter P (seq (c + start) n)).
Proof.
  revert start. induction n as [|n IH]; intros start; [done|].
  cbn [seq]. rewrite !filter_cons.
  replace (S (c + start)) with (c + S start)%nat by lia.
  destruct (decide (P (c + start)%nat)); cbn [length]; by rewrite IH.
Qed.

Lemma filter_seq_window N :
  (∀ k, P (k + N)%nat ↔ P k) →
  ∀ start, length (filter P (seq start N)) = length (filter P (seq 0 N)).
Proof.
  intros Hper. induction start as [|start IH]; [done|]. rewrite <-IH.
  assert (Hlen : length (filter P (seq start (S N)))
                 = length (filter P (seq start (S N)))) by done.
  rewrite seq_S in Hlen at 1. cbn [seq] in Hlen.
  rewrite filter_app, length_app, !filter_cons, filter_nil in Hlen.
  specialize (Hper start).
  destruct (decide (P (start + N)%nat)), (decide (P start)); cbn [length] in Hlen;
    try lia; tauto.
Qed.

End Counting.

Lemma inDuty_period v k : inDuty v (k + 256) ↔ inDuty v k.
Proof.
  unfold inDuty, MAX_PWM_VALUE.
  replace (Z.of_nat (k + 256)) with (Z.of_nat k + 1 * 256) by lia.
  by rewrite Z.mod_add.
Qed.

Lemma inDuty_prefix v n :
  (n ≤ 256)%nat →
  length (filter (inDuty v) (seq 0 n)) = (n `min` Z.to_nat v)%nat.
Proof.
  induction n as [|n IH]; intros Hn; [done|].
  rewrite seq_S, filter_app, length_app, IH by lia. cbn [Nat.add].
  rewrite filter_cons, filter_nil.
  assert (Hn' : inDuty v n ↔ Z.of_nat n < v).
  { unfold inDuty, MAX_PWM_VALUE. by rewrite Z.mod_small by lia. }
  destruct (decide (inDuty v n)) as [Hd|Hd]; rewrite Hn' in Hd; cbn [length]; lia.
Qed.

Lemma inDuty_window v c start :
  0 ≤ v ≤ MAX_PWM_VALUE →
  length (filter (λ k, inDuty v (c + k)) (seq start 256)) = Z.to_nat v.
Proof.
  unfold MAX_PWM_VALUE. intros Hv.
  rewrite (filter_seq_shift (inDuty v)).
  rewrite (filter_seq_window (inDuty v) 256 (inDuty_period v)).
  rewrite inDuty_prefix by done. lia.
Qed.

(** ** The waveform of a bound pin *)

(** The example scenario: [MAX_PWM_VALUE = 256], request (5, 128). *)
Example example_scenario :
  curISRTimerData (run [Request 5 128] initial) !!! 0%nat = mkSlot 128 128 5 0 true ∧
  highTicks 5 (run [Request 5 128] initial) 0 256 = 128%nat ∧
  pinLevel (io (ticks 128 (run [Request 5 128] initial))) 5 = Some true ∧
  pinLevel (io (ticks 129 (run [Request 5 128] initial))) 5 = Some false.
Proof. split_all; count_ticks highTicks_countHigh. Qed.

Lemma request_sets_duty p v t i :
  table_ok t → 1 ≤ v ≤ MAX_PWM_VALUE - 1 →
  findPin p (requestTable p v t) = Some i →
  PWM_Value (requestTable p v t !!! i) = v.
Proof.
  intros (Hlen & Hslots & Huniq) Hv Hfound.
  apply findPin_Some in Hfound as (Hi & Hu & Hp & _).
  revert Hu Hp. unfold requestTable.
  assert (Hclamp : clampValue v = v).
  { unfold clampValue, MAX_PWM_VALUE in *. case_match; [done|lia]. }
  rewrite Hclamp.
  destruct (findPin p t) as [i0|] eqn:Hfind.
  - apply findPin_Some in Hfind as (Hi0 & Hu0 & Hp0 & _).
    rewrite list_lookup_total_alter. case_decide as Hii.
    + intros _ _. destruct (Hslots i0 Hi0) as (_ & Hrange & Hpre & _).
      unfold updateSlot, MAX_PWM_VALUE in *.
      destruct (PWM_PremapValue _ =? v) eqn:Hsame.
      * apply Z.eqb_eq in Hsame. lia.
      * destruct (0 <=? PWM_Value _) eqn:Hnn; [done|lia].
    + intros Hu Hp. exfalso. apply Hii. split; [|lia].
      apply Huniq; [done..|congruence].
  - pose proof (findPin_None _ _ Hfind) as Hnone.
    destruct (findFree t) as [i0|] eqn:Hfree.
    + rewrite list_lookup_total_alter. case_decide as Hii; [done|].
      intros Hu Hp. by destruct (Hnone i Hi Hu).
    + intros Hu Hp. by destruct (Hnone i Hi Hu).
Qed.

Lemma set_countPWM_id s : set_countPWM (countPWM s) s = s.
Proof. by destruct s. Qed.

Lemma ticks_slot n w i :
  table_ok (curISRTimerData w) → (i < NUMBER_ISR_TIMERS)%nat →
  curISRTimerData (ticks n w) !!! i
  = set_countPWM ((countPWM (curISRTimerData w !!! i) + Z.of_nat n) `mod` MAX_PWM_VALUE)
                 (curISRTimerData w !!! i).
Proof.
  intros Hok Hi. induction n as [|n IH].
  - destruct Hok as (_ & Hslots & _). destruct (Hslots i Hi) as (Hc & _).
    cbn. rewrite Z.add_0_r, Z.mod_small by done. by rewrite set_countPWM_id.
  - pose proof (run_table_ok (replicate n Tick) w Hok) as (Hlen & _).
    rewrite ticks_S, TimerHandler_total, IH by done.
    unfold advance, set_countPWM. cbn [countPWM PWM_Value PWM_PremapValue pin beingUsed].
    rewrite advance_count_mod by (apply Z.mod_pos_bound; done).
    rewrite Z.add_mod_idemp_l by done.
    by replace (Z.of_nat (S n)) with (Z.of_nat n + 1) by lia; rewrite Z.add_assoc.
Qed.

Lemma tick_level w i k :
  world_ok w → (i < NUMBER_ISR_TIMERS)%nat →
  let s := curISRTimerData w !!! i in
  beingUsed s = true → pin s ≠ 0 → pin s ≠ LED_BUILTIN → 0 < PWM_Value s →
  pinLevel (io (ticks (S k) w)) (pin s)
  = Some ((countPWM s + Z.of_nat k) `mod` MAX_PWM_VALUE <? PWM_Value s).
Proof.
  intros Hw Hi s Hu Hp0 Hp13 Hpos.
  pose proof (ticks_world_ok k w Hw) as [Hokk Hcohk].
  pose proof (ticks_slot k w i (proj1 Hw) Hi) as Hslot. fold s in Hslot.
  set (c := (countPWM s + Z.of_nat k) `mod` MAX_PWM_VALUE) in *.
  assert (Hdrv : drivenBy (pin s) i (curISRTimerData (ticks k w))).
  { replace (pin s) with (pin (curISRTimerData (ticks k w) !!! i))
      by (by rewrite Hslot).
    apply table_ok_drivenBy; [done..|]. by rewrite Hslot. }
  rewrite ticks_S, (TimerHandler_level _ _ i Hdrv); [|done..|by rewrite Hslot].
  specialize (Hcohk i Hi). cbv zeta in Hcohk |- *. rewrite Hslot in Hcohk |- *.
  cbn in Hcohk |- *.
  destruct (c =? 0) eqn:Hzero.
  - apply Z.eqb_eq in Hzero. rewrite Hzero. f_equal. symmetry. by apply Z.ltb_lt.
  - destruct (c =? PWM_Value s) eqn:Hend.
    + apply Z.eqb_eq in Hend. f_equal. symmetry. apply Z.ltb_ge. lia.
    + apply Z.eqb_neq in Hzero, Hend. rewrite Hcohk by done. f_equal.
      destruct (Z.ltb_spec (c - 1) (PWM_Value s));
        destruct (Z.ltb_spec c (PWM_Value s)); try done; lia.
Qed.

(** The waveform of a driven slot: its phase after [k] ticks, and the pin
    level after the tick executed at that phase. *)
Lemma bound_pin_shape w p i k :
  world_ok w → findPin p (curISRTimerData w) = Some i →
  p ≠ 0 → p ≠ LED_BUILTIN → 0 < PWM_Value (curISRTimerData w !!! i) →
  countPWM (curISRTimerData (ticks k w) !!! i)
  = (countPWM (curISRTimerData w !!! i) + Z.of_nat k) `mod` MAX_PWM_VALUE ∧
  pinLevel (io (ticks (S k) w)) p
  = Some (countPWM (curISRTimerData (ticks k w) !!! i)
          <? PWM_Value (curISRTimerData w !!! i)).
Proof.
  intros Hw Hfound Hp0 Hp13 Hpos.
  pose proof (findPin_Some _ _ _ Hfound) as (Hi & Hu & Hpin & _).
  rewrite (ticks_slot k w i (proj1 Hw) Hi). cbn [countPWM set_countPWM].
  split; [done|]. rewrite <-Hpin.
  apply tick_level; [done..|congruence|congruence|done].
Qed.

Lemma highTicks_of_phase p w c v :
  0 ≤ c → 0 ≤ v ≤ MAX_PWM_VALUE →
  (∀ k, pinLevel (io (ticks (S k) w)) p
        = Some ((c + Z.of_nat k) `mod` MAX_PWM_VALUE <? v)) →
  ∀ start, highTicks p w start 256 = Z.to_nat v.
Proof.
  intros Hc Hv Hshape start. unfold highTicks.
  rewrite (list_filter_iff _ (λ k, inDuty v (Z.to_nat c + k))).
  - by apply inDuty_window.
  - intros k. rewrite Hshape. unfold inDuty.
    replace (Z.of_nat (Z.to_nat c + k)) with (c + Z.of_nat k) by lia.
    split.
    + intros [= Hlt]. by apply Z.ltb_lt.
    + intros Hlt. f_equal. by apply Z.ltb_lt.
Qed.

(** A bound pin whose slot holds duty 0 is not written by any tick. *)
Lemma idle_pin_keeps_level w p i n :
  world_ok w → findPin p (curISRTimerData w) = Some i → p ≠ LED_BUILTIN →
  PWM_Value (curISRTimerData w !!! i) = 0 →
  pinLevel (io (ticks n w)) p = pinLevel (io w) p.
Proof.
  intros Hw Hfound Hp13 Hzero.
  pose proof (findPin_Some _ _ _ Hfound) as (Hi & Hu & Hpin & _).
  induction n as [|n IH]; [done|].
  rewrite ticks_S, TimerHandler_level_idle; [done..|].
  destruct (ticks_world_ok n w Hw) as [(Hlen & _) _].
  destruct Hw as [Hok _]. pose proof Hok as (_ & _ & Huniq).
  intros j Hju Hjpos Hjp.
  destruct (decide (j < NUMBER_ISR_TIMERS)%nat) as [Hj|Hj].
  - rewrite ticks_slot in Hju, Hjpos, Hjp by done. cbn in Hju, Hjpos, Hjp.
    assert (j = i) as -> by (apply Huniq; [done..|congruence]). lia.
  - rewrite total_out_of_range in Hju by lia. done.
Qed.

Lemma Forall2_total {A} `{!Inhabited A} (R : A → A → Prop) (l k : list A) :
  length l = length k →
  (∀ i, (i < length l)%nat → R (l !!! i) (k !!! i)) →
  Forall2 R l k.
Proof.
  intros Hlen HR. apply Forall2_same_length_lookup. split; [done|].
  intros i x y Hx Hy. pose proof (lookup_lt_Some _ _ _ Hx) as Hi.
  rewrite <-(list_lookup_total_correct _ _ _ Hx), <-(list_lookup_total_correct _ _ _ Hy).
  by apply HR.
Qed.

Lemma Forall_slots (P : ISRTimerData → Prop) (t : list ISRTimerData) :
  (∀ i, (i < length t)%nat → P (t !!! i)) → Forall P t.
Proof.
  intros H. apply Forall_lookup. intros i x Hx.
  rewrite <-(list_lookup_total_correct _ _ _ Hx). apply H.
  by eapply lookup_lt_Some.
Qed.

(** ** Slots stay in use *)

Lemma requestTable_keeps_used p value t j :
  0 ≤ value → table_ok t →
  beingUsed (t !!! j) = true → beingUsed (requestTable p value t !!! j) = true.
Proof.
  intros Hval (Hlen & Hslots & _) Hu. unfold requestTable.
  pose proof (clampValue_range value Hval) as Hlv.
  destruct (findPin p t) as [i|] eqn:Hfind.
  - apply findPin_Some in Hfind as (Hi & Hiu & _).
    rewrite list_lookup_total_alter. case_decide; [|done].
    by destruct (updateSlot_ok _ _ Hlv (Hslots i Hi) Hiu) as (_ & -> & _).
  - destruct (findFree t) as [i|]; [|done].
    rewrite list_lookup_total_alter. by case_decide.
Qed.

Lemma step_keeps_used c w j :
  table_ok (curISRTimerData w) →
  beingUsed (curISRTimerData w !!! j) = true →
  beingUsed (curISRTimerData (step c w) !!! j) = true.
Proof.
  intros Hok Hu. destruct c as [p value|]; cbn [step].
  - rewrite fakeAnalogWrite_table.
    apply requestTable_keeps_used; [apply to_uint16_range|done..].
  - destruct Hok as (Hlen & _).
    destruct (decide (j < NUMBER_ISR_TIMERS)%nat) as [Hj|Hj].
    + by rewrite TimerHandler_total.
    + rewrite total_out_of_range in Hu by lia. done.
Qed.

Lemma run_keeps_used cs w j :
  table_ok (curISRTimerData w) →
  beingUsed (curISRTimerData w !!! j) = true →
  beingUsed (curISRTimerData (run cs w) !!! j) = true.
Proof.
  revert w. induction cs as [|c cs IH]; intros w Hok Hu; [done|].
  apply (IH (step c w)); [by apply step_table_ok | by apply step_keeps_used].
Qed.

(** ** Repeated requests *)

Lemma scan_ext c c' lo fuel :
  (∀ j, (lo ≤ j < lo + fuel)%nat → c j = c' j) →
  scan c lo fuel = scan c' lo fuel.
Proof.
  revert lo. induction fuel as [|fuel IH]; intros lo Hcc; [done|].
  cbn. rewrite (Hcc lo) by lia. rewrite (IH (S lo)); [done|].
  intros j Hj. apply Hcc. lia.
Qed.

Lemma findPin_ext p t t' :
  (∀ j, (j < NUMBER_ISR_TIMERS)%nat →
        beingUsed (t' !!! j) = beingUsed (t !!! j) ∧ pin (t' !!! j) = pin (t !!! j)) →
  findPin p t' = findPin p t.
Proof.
  intros Hsame. apply scan_ext. intros j Hj.
  destruct (Hsame j) as [-> ->]; [lia|done].
Qed.

Lemma fakeAnalogWrite_same_value p value w i :
  findPin p (curISRTimerData w) = Some i →
  PWM_PremapValue (curISRTimerData w !!! i) = clampValue value →
  fakeAnalogWrite p value w = emit (SerialIgnore i) w.
Proof.
  intros Hfind Hsame. unfold fakeAnalogWrite, fakeAnalogWrite_body.
  rewrite Hfind, Hsame, Z.eqb_refl. done.
Qed.

(** Where suppression does work: once a request has gone through the
    update path (the pin was bound before the call), repeating it with
    the same value, any number of ticks later, changes no slot; it only
    prints the "Ignore" line. *)
Lemma repeated_update_is_ignored p value w i n :
  table_ok (curISRTimerData w) → 0 ≤ value →
  findPin p (curISRTimerData w) = Some i →
  let w1 := ticks n (fakeAnalogWrite p value w) in
  fakeAnalogWrite p value w1 = emit (SerialIgnore i) w1.
Proof.
  intros Hok Hval Hfind w1.
  pose proof (findPin_Some _ _ _ Hfind) as (Hi & Hu & _).
  pose proof Hok as (Hlen & Hslots & _).
  pose proof (clampValue_range value Hval) as Hlv.
  assert (Hok' : table_ok (curISRTimerData (fakeAnalogWrite p value w))).
  { rewrite fakeAnalogWrite_table. by apply requestTable_ok. }
  assert (Hslot : ∀ j, (j < NUMBER_ISR_TIMERS)%nat →
            curISRTimerData (fakeAnalogWrite p value w) !!! j
            = if decide (i = j) then updateSlot (clampValue value) (curISRTimerData w !!! i)
              else curISRTimerData w !!! j).
  { intros j Hj. rewrite fakeAnalogWrite_table. unfold requestTable.
    rewrite Hfind, list_lookup_total_alter.
    repeat case_decide; try done; destruct_and?; try lia; exfalso; auto with lia. }
  destruct (updateSlot_ok _ _ Hlv (Hslots i Hi) Hu) as (_ & Hu' & Hp').
  apply fakeAnalogWrite_same_value.
  - rewrite <-Hfind. apply findPin_ext. intros j Hj.
    unfold w1. rewrite ticks_slot, Hslot by done. cbn.
    case_decide; [subst j; by rewrite Hu', Hp'|done].
  - unfold w1. rewrite ticks_slot, Hslot by done. cbn.
    rewrite decide_True by done. unfold updateSlot.
    destruct (Hslots i Hi) as (_ & Hrange & _).
    destruct (PWM_PremapValue _ =? _) eqn:Hsame; [by apply Z.eqb_eq|].
    destruct (0 <=? PWM_Value _) eqn:Hnn; [done|lia].
Qed.

(** * The claims *)

(** C1 (as amended).  From any state reachable from start-up, let
    [fakeAnalogWrite p v] with [1 ≤ v ≤ MAX_PWM_VALUE - 1] leave pin [p]
    bound to a slot, where [p] is neither the unset sentinel 0 (which the
    dispatcher skips) nor [LED_BUILTIN] (which the heartbeat also writes).
    Then the slot holds [PWM_Value = v], the tick executed at phase
    [countPWM = c] leaves the pin high exactly when [c < v], and every
    window of [MAX_PWM_VALUE] consecutive ticks after the request has the
    pin high after exactly [v] of them. *)
Theorem duty_cycle_of_bound_pin cs p v :
  1 ≤ v ≤ MAX_PWM_VALUE - 1 → p ≠ 0 → p ≠ LED_BUILTIN →
  let w := fakeAnalogWrite p v (run cs initial) in
  is_Some (findPin p (curISRTimerData w)) →
  ∃ i, findPin p (curISRTimerData w) = Some i ∧
       PWM_Value (curISRTimerData w !!! i) = v ∧
       (∀ k, countPWM (curISRTimerData (ticks k w) !!! i)
             = (countPWM (curISRTimerData w !!! i) + Z.of_nat k) `mod` MAX_PWM_VALUE ∧
             pinLevel (io (ticks (S k) w)) p
             = Some (countPWM (curISRTimerData (ticks k w) !!! i) <? v)) ∧
       ∀ start, highTicks p w start 256 = Z.to_nat v.
Proof.
  intros Hv Hp0 Hp13 w [i Hfound]. exists i.
  assert (Hw : world_ok w).
  { apply fakeAnalogWrite_world_ok; [lia|].
    apply run_world_ok, initial_world_ok. }
  assert (Hduty : PWM_Value (curISRTimerData w !!! i) = v).
  { revert Hfound. unfold w. rewrite fakeAnalogWrite_table.
    apply request_sets_duty; [|done].
    apply run_table_ok, initial_table_ok. }
  assert (Hshape : ∀ k,
    countPWM (curISRTimerData (ticks k w) !!! i)
    = (countPWM (curISRTimerData w !!! i) + Z.of_nat k) `mod` MAX_PWM_VALUE ∧
    pinLevel (io (ticks (S k) w)) p
    = Some (countPWM (curISRTimerData (ticks k w) !!! i) <? v)).
  { intros k.
    destruct (bound_pin_shape w p i k Hw Hfound Hp0 Hp13) as [Hcnt Hlev]; [lia|].
    by rewrite Hduty in Hlev. }
  split_all; [done|done|exact Hshape|].
  pose proof (findPin_Some _ _ _ Hfound) as (Hi & _).
  destruct Hw as [(_ & Hslots & _) _]. destruct (Hslots i Hi) as (Hc & _).
  apply (highTicks_of_phase p w (countPWM (curISRTimerData w !!! i)) v);
    [lia | unfold MAX_PWM_VALUE in *; lia |].
  intros k. destruct (Hshape k) as [Hcnt ->]. by rewrite Hcnt.
Qed.

Lemma duty_cycle_of_bound_pin_witness :
  let w := fakeAnalogWrite 5 128 (run [Request 7 30; Tick; Tick] initial) in
  ∃ i, findPin 5 (curISRTimerData w) = Some i ∧
       PWM_Value (curISRTimerData w !!! i) = 128 ∧
       (∀ k, countPWM (curISRTimerData (ticks k w) !!! i)
             = (countPWM (curISRTimerData w !!! i) + Z.of_nat k) `mod` MAX_PWM_VALUE ∧
             pinLevel (io (ticks (S k) w)) 5
             = Some (countPWM (curISRTimerData (ticks k w) !!! i) <? 128)) ∧
       ∀ start, highTicks 5 w start 256 = Z.to_nat 128.
Proof.
  apply (duty_cycle_of_bound_pin [Request 7 30; Tick; Tick] 5 128).
  - unfold MAX_PWM_VALUE. lia.
  - lia.
  - unfold LED_BUILTIN. lia.
  - exists 1%nat. vm_compute. reflexivity.
Defined.

(** C1 as stated fails for two pins.  A request for pin 0 binds a slot,
    but the dispatcher's guard [pin != 0] skips it, so the pin is never
    driven high.  A request for [LED_BUILTIN] binds a slot whose waveform
    the heartbeat write cuts short: in the window of ticks 4864 to 5119
    after the request the pin is high after 135 ticks, not 200. *)
Lemma duty_cycle_counterexample :
  (let w := fakeAnalogWrite 0 100 initial in
   findPin 0 (curISRTimerData w) = Some 0%nat ∧
   highTicks 0 w 0 256 = 0%nat ∧ highTicks 0 w 0 256 ≠ Z.to_nat 100) ∧
  (let w := fakeAnalogWrite LED_BUILTIN 200 initial in
   findPin LED_BUILTIN (curISRTimerData w) = Some 0%nat ∧
   highTicks LED_BUILTIN w 4864 256 = 135%nat ∧
   highTicks LED_BUILTIN w 4864 256 ≠ Z.to_nat 200).
Proof. cbv zeta. split_all; count_ticks highTicks_countHigh. Qed.

(** C2.  The clamp of [fakeAnalogWrite] is [min value MAX_PWM_VALUE]: it
    lets [MAX_PWM_VALUE] itself through.  A request with value 300 (or any
    value from 256 up) stores [PWM_Value = 256] in an active slot, on the
    allocation path and on the update path alike. *)
Theorem clamp_stores_MAX_PWM_VALUE :
  (∀ value, clampValue value = value `min` MAX_PWM_VALUE) ∧
  clampValue 300 = MAX_PWM_VALUE ∧
  curISRTimerData (run [Request 5 300] initial) !!! 0%nat
  = mkSlot MAX_PWM_VALUE MAX_PWM_VALUE 5 0 true ∧
  curISRTimerData (run [Request 5 10; Request 5 256] initial) !!! 0%nat
  = mkSlot MAX_PWM_VALUE MAX_PWM_VALUE 5 0 true.
Proof.
  split; [|by_evaluation].
  intros value. unfold clampValue. destruct (Z.ltb_spec value MAX_PWM_VALUE); lia.
Qed.

(** C3.  Suppression fails right after an allocation with the boundary
    value [MAX_PWM_VALUE - 1]: the allocation path stores [PWM_Value] but
    not [PWM_PremapValue], so the same request made again is not recognised
    as a repetition.  It writes [PWM_PremapValue] (0 to 255) and resets
    [countPWM] (1 to 0). *)
Theorem repeated_boundary_request_mutates :
  let w1 := run [Request 5 255; Tick] initial in
  let w2 := step (Request 5 255) w1 in
  findPin 5 (curISRTimerData w1) = Some 0%nat ∧
  curISRTimerData w1 !!! 0%nat = mkSlot 255 0 5 1 true ∧
  curISRTimerData w2 !!! 0%nat = mkSlot 255 255 5 0 true ∧
  curISRTimerData w2 ≠ curISRTimerData w1.
Proof.
  cbv zeta. split_all; try (vm_compute; reflexivity).
  vm_compute. discriminate.
Qed.

(** C4.  Let the first in-use slot bound to pin [p] be slot [i], marked
    for release ([PWM_Value < 0]), and let the request not be suppressed as
    a repetition of the stored [PWM_PremapValue].  Then
    [fakeAnalogWrite p value] followed by a tick leaves slot [i] free:
    [beingUsed = false], [pin = 0], [PWM_Value = 0], with
    [PWM_PremapValue] not updated.  If the freed slot is then the first
    free one, a request for a pin [q] that no slot holds binds slot [i]
    to [q]. *)
Theorem release_frees_slot p value w i :
  length (curISRTimerData w) = NUMBER_ISR_TIMERS →
  findPin p (curISRTimerData w) = Some i →
  PWM_Value (curISRTimerData w !!! i) < 0 →
  PWM_PremapValue (curISRTimerData w !!! i) ≠ clampValue value →
  let w1 := TimerHandler (fakeAnalogWrite p value w) in
  curISRTimerData w1 !!! i
  = mkSlot 0 (PWM_PremapValue (curISRTimerData w !!! i)) 0 1 false ∧
  ∀ q value',
    findPin q (curISRTimerData w1) = None →
    (∀ j, (j < i)%nat → beingUsed (curISRTimerData w1 !!! j) = true) →
    let s := curISRTimerData (fakeAnalogWrite q value' w1) !!! i in
    beingUsed s = true ∧ pin s = q ∧ PWM_Value s = clampValue value'.
Proof.
  intros Hlen Hfind Hneg Hne w1.
  pose proof (findPin_Some _ _ _ Hfind) as (Hi & _).
  assert (Hslot : curISRTimerData w1 !!! i
                  = mkSlot 0 (PWM_PremapValue (curISRTimerData w !!! i)) 0 1 false).
  { unfold w1. rewrite TimerHandler_total;
      [|by rewrite fakeAnalogWrite_table; unfold requestTable;
           rewrite Hfind, length_alter|done].
    rewrite fakeAnalogWrite_table. unfold requestTable. rewrite Hfind.
    rewrite list_lookup_total_alter_eq by lia.
    unfold updateSlot.
    rewrite (proj2 (Z.eqb_neq _ _) Hne), (proj2 (Z.leb_gt _ _) Hneg).
    reflexivity. }
  split; [done|].
  intros q value' Hq Hlow.
  assert (Hfree : findFree (curISRTimerData w1) = Some i).
  { apply scan_first; [lia| |].
    - by rewrite Hslot.
    - intros j Hj. rewrite Hlow by lia. done. }
  assert (Hlen1 : length (curISRTimerData w1) = NUMBER_ISR_TIMERS).
  { unfold w1. rewrite TimerHandler_table.
    destruct (dispatchSlots_statics 0 NUMBER_ISR_TIMERS (fakeAnalogWrite p value w))
      as (_ & _ & ->).
    rewrite fakeAnalogWrite_table. unfold requestTable.
    by rewrite Hfind, length_alter. }
  cbv zeta. rewrite fakeAnalogWrite_table. unfold requestTable.
  rewrite Hq, Hfree, list_lookup_total_alter_eq by lia.
  done.
Qed.

Lemma release_frees_slot_witness :
  let w1 := TimerHandler (fakeAnalogWrite 5 10 releaseExample) in
  curISRTimerData w1 !!! 1%nat = mkSlot 0 77 0 1 false ∧
  let s := curISRTimerData (fakeAnalogWrite 9 20 w1) !!! 1%nat in
  beingUsed s = true ∧ pin s = 9 ∧ PWM_Value s = 20.
Proof.
  destruct (release_frees_slot 5 10 releaseExample 1) as [Hfree Hreuse].
  - reflexivity.
  - reflexivity.
  - cbn. lia.
  - cbn. discriminate.
  - split; [exact Hfree|].
    apply (Hreuse 9 20).
    + vm_compute. reflexivity.
    + intros j Hj. assert (j = 0%nat) as -> by lia. vm_compute. reflexivity.
Defined.

(** C4 as stated, for every request made on a slot marked for release,
    fails: the test for a repeated value (line 248) comes before the
    release branch.  In [releaseSaturated] slot 1 is bound to pin 5 with
    [PWM_Value = -1] and [PWM_PremapValue = 256]; the request
    [fakeAnalogWrite(5, -1)], whose argument the parameter type turns into
    65535 and the clamp into 256, is ignored as a repetition, and after
    the tick the slot is still in use, bound to pin 5 and marked for
    release.  A request for the new pin 9 then takes slot 2, not slot 1.
    The same holds in [releaseExample] for a request with the stored
    value 77. *)
Lemma release_request_counterexample :
  (let w := step (Request 5 (-1)) releaseSaturated in
   let w1 := TimerHandler w in
   findPin 5 (curISRTimerData releaseSaturated) = Some 1%nat ∧
   PWM_Value (curISRTimerData releaseSaturated !!! 1%nat) = -1 ∧
   clampValue (to_uint16 (-1)) = 256 ∧
   io w = [SerialIgnore 1] ∧
   curISRTimerData w = curISRTimerData releaseSaturated ∧
   beingUsed (curISRTimerData w1 !!! 1%nat) = true ∧
   pin (curISRTimerData w1 !!! 1%nat) = 5 ∧
   PWM_Value (curISRTimerData w1 !!! 1%nat) = -1 ∧
   findPin 9 (curISRTimerData (fakeAnalogWrite 9 20 w1)) = Some 2%nat) ∧
  (let w1 := TimerHandler (fakeAnalogWrite 5 77 releaseExample) in
   beingUsed (curISRTimerData w1 !!! 1%nat) = true ∧
   pin (curISRTimerData w1 !!! 1%nat) = 5 ∧
   PWM_Value (curISRTimerData w1 !!! 1%nat) = -1).
Proof. by_evaluation. Qed.

(** C5.  When every one of the 16 slots is in use and none of them is
    bound to pin [p], [fakeAnalogWrite p value] returns the state it was
    given: no field of any slot changes and no I/O call is made. *)
Theorem full_table_request_is_noop p value w :
  length (curISRTimerData w) = NUMBER_ISR_TIMERS →
  Forall (λ s, beingUsed s = true ∧ pin s ≠ p) (curISRTimerData w) →
  fakeAnalogWrite p value w = w.
Proof.
  intros Hlen Hall. rewrite Forall_lookup_total in Hall.
  unfold fakeAnalogWrite, fakeAnalogWrite_body.
  destruct (findPin p (curISRTimerData w)) as [i|] eqn:Hfind.
  { apply findPin_Some in Hfind as (Hi & _ & Hp & _).
    destruct (Hall i) as [_ Hne]; [lia|done]. }
  destruct (findFree (curISRTimerData w)) as [i|] eqn:Hfree; [|done].
  apply findFree_Some in Hfree as (Hi & Hu & _).
  destruct (Hall i) as [Hused _]; [lia|congruence].
Qed.

Lemma full_table_request_is_noop_witness :
  let w := run [Request 1 10; Request 2 10; Request 3 10; Request 4 10;
                Request 5 10; Request 6 10; Request 7 10; Request 8 10;
                Request 9 10; Request 10 10; Request 11 10; Request 12 10;
                Request 14 10; Request 15 10; Request 16 10; Request 17 10]
               initial in
  fakeAnalogWrite 18 200 w = w.
Proof.
  apply (full_table_request_is_noop 18 200).
  - reflexivity.
  - vm_compute. repeat constructor; discriminate.
Defined.

(** C6 (as amended).  For a pin [p] other than 0 and [LED_BUILTIN], from any
    state reachable from start-up.  After [fakeAnalogWrite p
    (MAX_PWM_VALUE - 1)] that leaves [p] bound, the slot holds
    [PWM_Value = MAX_PWM_VALUE - 1], the pin is low only after the tick
    executed at [countPWM = MAX_PWM_VALUE - 1], and it is high after 255
    ticks of any 256 consecutive ones.  After [fakeAnalogWrite p 0] that
    leaves [PWM_Value = 0] in the slot bound to [p], no tick sets the pin
    high: if it is high after some number of ticks, it was high already
    when the request returned. *)
Theorem boundary_duty cs p :
  p ≠ 0 → p ≠ LED_BUILTIN →
  (let w := fakeAnalogWrite p (MAX_PWM_VALUE - 1) (run cs initial) in
   ∀ i, findPin p (curISRTimerData w) = Some i →
     PWM_Value (curISRTimerData w !!! i) = MAX_PWM_VALUE - 1 ∧
     (∀ k, pinLevel (io (ticks (S k) w)) p
           = Some (negb (countPWM (curISRTimerData (ticks k w) !!! i)
                         =? MAX_PWM_VALUE - 1))) ∧
     ∀ start, highTicks p w start 256 = 255%nat) ∧
  (let w := fakeAnalogWrite p 0 (run cs initial) in
   ∀ i, findPin p (curISRTimerData w) = Some i →
     PWM_Value (curISRTimerData w !!! i) = 0 →
     ∀ n, pinLevel (io (ticks n w)) p = Some true →
          pinLevel (io w) p = Some true).
Proof.
  intros Hp0 Hp13.
  assert (Hreach : world_ok (run cs initial))
    by apply run_world_ok, initial_world_ok.
  split.
  - intros w i Hfound.
    assert (Hw : world_ok w)
      by (apply fakeAnalogWrite_world_ok; [unfold MAX_PWM_VALUE; lia|done]).
    assert (Hduty : PWM_Value (curISRTimerData w !!! i) = MAX_PWM_VALUE - 1).
    { revert Hfound. unfold w. rewrite fakeAnalogWrite_table.
      apply request_sets_duty; [apply Hreach|unfold MAX_PWM_VALUE; lia]. }
    assert (Hshape : ∀ k,
      0 ≤ countPWM (curISRTimerData (ticks k w) !!! i) < MAX_PWM_VALUE ∧
      countPWM (curISRTimerData (ticks k w) !!! i)
      = (countPWM (curISRTimerData w !!! i) + Z.of_nat k) `mod` MAX_PWM_VALUE ∧
      pinLevel (io (ticks (S k) w)) p
      = Some (countPWM (curISRTimerData (ticks k w) !!! i) <? MAX_PWM_VALUE - 1)).
    { intros k.
      destruct (bound_pin_shape w p i k Hw Hfound Hp0 Hp13) as [Hcnt Hlev];
        [unfold MAX_PWM_VALUE in *; lia|].
      rewrite Hduty in Hlev. split; [|done].
      rewrite Hcnt. by apply Z.mod_pos_bound. }
    split_all; [done| |].
    + intros k. destruct (Hshape k) as (Hr & _ & ->). f_equal.
      unfold MAX_PWM_VALUE in *.
      destruct (Z.ltb_spec (countPWM (curISRTimerData (ticks k w) !!! i)) (256 - 1)),
               (Z.eqb_spec (countPWM (curISRTimerData (ticks k w) !!! i)) (256 - 1));
        cbn; try done; lia.
    + pose proof (findPin_Some _ _ _ Hfound) as (Hi & _).
      destruct Hw as [(_ & Hslots & _) _]. destruct (Hslots i Hi) as (Hc & _).
      change 255%nat with (Z.to_nat (MAX_PWM_VALUE - 1)).
      apply (highTicks_of_phase p w (countPWM (curISRTimerData w !!! i)));
        [lia | unfold MAX_PWM_VALUE; lia |].
      intros k. destruct (Hshape k) as (_ & Hcnt & ->). by rewrite Hcnt.
  - intros w i Hfound Hzero n.
    assert (Hw : world_ok w) by (by apply fakeAnalogWrite_world_ok).
    by rewrite (idle_pin_keeps_level w p i n).
Qed.

Lemma boundary_duty_witness :
  let w0 := run [Request 7 30; Tick] initial in
  highTicks 5 (fakeAnalogWrite 5 (MAX_PWM_VALUE - 1) w0) 0 256 = 255%nat ∧
  ∀ n, pinLevel (io (ticks n (fakeAnalogWrite 5 0 w0))) 5 = Some true →
       pinLevel (io (fakeAnalogWrite 5 0 w0)) 5 = Some true.
Proof.
  destruct (boundary_duty [Request 7 30; Tick] 5) as [Hmax Hzero].
  - lia.
  - unfold LED_BUILTIN. lia.
  - split.
    + apply (Hmax 1%nat). vm_compute. reflexivity.
    + apply (Hzero 1%nat); vm_compute; reflexivity.
Defined.

(** C6 as stated fails for the same two pins as C1: after
    [fakeAnalogWrite 0 255] the slot bound to pin 0 is skipped by the
    dispatcher and the pin is never set high, and for [LED_BUILTIN] the
    heartbeat write cuts the high time of one period to 135 ticks. *)
Lemma boundary_duty_counterexample :
  (let w := fakeAnalogWrite 0 (MAX_PWM_VALUE - 1) initial in
   findPin 0 (curISRTimerData w) = Some 0%nat ∧
   highTicks 0 w 0 256 = 0%nat ∧ highTicks 0 w 0 256 ≠ 255%nat) ∧
  (let w := fakeAnalogWrite LED_BUILTIN (MAX_PWM_VALUE - 1) initial in
   findPin LED_BUILTIN (curISRTimerData w) = Some 0%nat ∧
   highTicks LED_BUILTIN w 4864 256 = 135%nat ∧
   highTicks LED_BUILTIN w 4864 256 ≠ 255%nat).
Proof. cbv zeta. split_all; count_ticks highTicks_countHigh. Qed.

(** Two ways in which a request for duty 0 is not honoured.
    After pin 5 has been allocated with the boundary value 255,
    [fakeAnalogWrite 5 0] finds [PWM_PremapValue] still 0, prints "Ignore"
    and returns: the slot keeps [PWM_Value = 255] and the dispatcher sets
    the pin high on the next tick and keeps it high after 255 ticks of
    every 256.  And when a request for duty 0 does go through while the
    pin is high, the dispatcher skips the slot from then on and never
    writes the pin low: it stays high through a full period. *)
Lemma zero_duty_request_not_honoured :
  (let w := run [Request 5 255; Request 5 0] initial in
   curISRTimerData w !!! 0%nat = mkSlot 255 0 5 0 true ∧
   head (io w) = Some (SerialIgnore 0) ∧
   head (io (TimerHandler w)) = Some (DigitalWrite 5 true) ∧
   highTicks 5 w 0 256 = 255%nat) ∧
  (let w := run [Request 5 100; Tick; Request 5 0] initial in
   curISRTimerData w !!! 0%nat = mkSlot 0 0 5 0 true ∧
   pinLevel (io w) 5 = Some true ∧
   highTicks 5 w 0 256 = 256%nat).
Proof. cbv zeta. split_all; count_ticks highTicks_countHigh. Qed.

(** C7.  After any sequence of requests and ticks from start-up, every
    slot has [0 ≤ countPWM < MAX_PWM_VALUE]; a tick takes each counter
    [c] to [(c + 1) mod MAX_PWM_VALUE], and a request leaves each counter
    as it was or resets it to 0. *)
Theorem countPWM_in_range cs :
  let w := run cs initial in
  Forall (λ s, 0 ≤ countPWM s < MAX_PWM_VALUE) (curISRTimerData w) ∧
  Forall2 (λ s s', countPWM s' = (countPWM s + 1) `mod` MAX_PWM_VALUE)
          (curISRTimerData w) (curISRTimerData (TimerHandler w)) ∧
  ∀ p value,
    Forall2 (λ s s', countPWM s' = countPWM s ∨ countPWM s' = 0)
            (curISRTimerData w) (curISRTimerData (fakeAnalogWrite p value w)).
Proof.
  intros w.
  assert (Hok : table_ok (curISRTimerData w))
    by apply run_table_ok, initial_table_ok.
  destruct Hok as (Hlen & Hslots & Huniq).
  split; [|split].
  - apply Forall_slots. intros i Hi. apply Hslots. lia.
  - rewrite TimerHandler_table_fmap by done. apply Forall2_fmap_r.
    apply Forall_Forall2_diag, Forall_slots. intros i Hi.
    cbn. apply advance_count_mod, Hslots. lia.
  - intros p value. rewrite fakeAnalogWrite_table.
    apply Forall2_total.
    + unfold requestTable. repeat case_match; by rewrite ?length_alter.
    + intros i Hi. unfold requestTable.
      repeat case_match; rewrite ?list_lookup_total_alter;
        try case_decide; try (by left);
        destruct_and?; subst; unfold updateSlot, allocSlot;
        repeat case_match; cbn; auto.
Qed.

(** C8.  [fakeAnalogWrite] is preempted between its stores.  Pin 5 runs
    at duty 200 and is 50 ticks into its period (high).  During
    [fakeAnalogWrite 5 50] the timer fires after [PWM_Value] has been
    stored and before [countPWM] is reset: the handler sees the new duty
    50 with the old phase 50 and writes the pin low.  Neither order of
    the two without preemption does that: tick then request, and request
    then tick, both leave the pin high. *)
Theorem update_is_torn_by_the_interrupt :
  let w0 := run (Request 5 200 :: replicate 50 Tick) initial in
  let body := fakeAnalogWrite_body 5 50 w0 in
  exec_irq [] body w0 = fakeAnalogWrite 5 50 w0 ∧
  length body = 4%nat ∧
  curISRTimerData w0 !!! 0%nat = mkSlot 200 200 5 50 true ∧
  pinLevel (io w0) 5 = Some true ∧
  curISRTimerData (exec_irq [] (take 2 body) w0) !!! 0%nat = mkSlot 50 50 5 50 true ∧
  pinLevel (io (exec_irq [0; 0; 1]%nat body w0)) 5 = Some false ∧
  pinLevel (io (fakeAnalogWrite 5 50 (TimerHandler w0))) 5 = Some true ∧
  pinLevel (io (TimerHandler (fakeAnalogWrite 5 50 w0))) 5 = Some true.
Proof. by_evaluation. Qed.

(** C9.  After any sequence of calls from start-up every slot has
    [PWM_Value ≥ 0], so the guard [PWM_Value >= 0] of the update path never
    fails and its release branch is not taken; and a slot that is in use
    stays in use under every further sequence of requests and ticks. *)
Theorem used_slots_stay_used cs more :
  let w := run cs initial in
  Forall (λ s, 0 ≤ PWM_Value s ∧ (0 <=? PWM_Value s) = true) (curISRTimerData w) ∧
  Forall2 (λ s s', beingUsed s = true → beingUsed s' = true)
          (curISRTimerData w) (curISRTimerData (run more w)).
Proof.
  intros w.
  assert (Hok : table_ok (curISRTimerData w))
    by apply run_table_ok, initial_table_ok.
  split.
  - destruct Hok as (Hlen & Hslots & _). apply Forall_slots. intros i Hi.
    destruct (Hslots i) as (_ & Hv & _); [lia|].
    split; [lia|]. apply Z.leb_le. lia.
  - apply Forall2_total.
    + destruct (run_table_ok more w Hok) as (-> & _). by destruct Hok as (-> & _).
    + intros i _. by apply run_keeps_used.
Qed.

Lemma used_slots_stay_used_witness :
  let w := run [Request 5 128; Tick] initial in
  beingUsed (curISRTimerData w !!! 0%nat) = true ∧
  beingUsed (curISRTimerData (run [Request 5 0; Tick; Request 9 3] w) !!! 0%nat) = true.
Proof.
  destruct (used_slots_stay_used [Request 5 128; Tick] [Request 5 0; Tick; Request 9 3])
    as [_ Hmono].
  cbv zeta. split; [reflexivity|].
  rewrite Forall2_same_length_lookup in Hmono. destruct Hmono as [_ Hmono].
  apply (Hmono 0%nat
           (curISRTimerData (run [Request 5 128; Tick] initial) !!! 0%nat)
           (curISRTimerData (run [Request 5 0; Tick; Request 9 3]
                               (run [Request 5 128; Tick] initial)) !!! 0%nat));
    reflexivity.
Defined.

(** C10.  [doingSomething index] rewrites the table only at [index], and
    there only [countPWM]; [beingUsed], [pin], [PWM_Value] and
    [PWM_PremapValue] of every slot, and the two statics, are as before.
    The same holds for a whole [TimerHandler] run as far as the slot
    fields are concerned. *)
Theorem tick_frame index w :
  curISRTimerData (doingSomething index w)
  = alter (λ s, set_countPWM (Z.rem (countPWM s + 1) MAX_PWM_VALUE) s)
          index (curISRTimerData w) ∧
  Forall2 sameBinding (curISRTimerData w) (curISRTimerData (doingSomething index w)) ∧
  toggle (doingSomething index w) = toggle w ∧
  timeRun (doingSomething index w) = timeRun w ∧
  Forall2 sameBinding (curISRTimerData w) (curISRTimerData (TimerHandler w)).
Proof.
  rewrite doingSomething_eq. cbn. repeat split.
  - apply Forall2_same_length_lookup. split; [by rewrite length_alter|].
    intros i x y Hx. rewrite list_lookup_alter. case_decide.
    + subst. rewrite Hx. by intros [= <-].
    + rewrite Hx. by intros [= <-].
  - rewrite TimerHandler_table. apply Forall2_same_length_lookup. split.
    + by destruct (dispatchSlots_statics 0 NUMBER_ISR_TIMERS w) as (_ & _ & ->).
    + intros i x y Hx. rewrite dispatchSlots_lookup, Hx.
      case_bool_decide; by intros [= <-].
Qed.

(** * Further properties *)

(** ** Bindings *)

Lemma bindings_lookup_total w w' i :
  bindings w = bindings w' →
  binding (curISRTimerData w !!! i) = binding (curISRTimerData w' !!! i).
Proof.
  unfold bindings. intros Heq.
  assert (Hi : binding <$> curISRTimerData w !! i
               = binding <$> curISRTimerData w' !! i)
    by (by rewrite <-!list_lookup_fmap, Heq).
  rewrite !list_lookup_total_alt.
  destruct (curISRTimerData w !! i), (curISRTimerData w' !! i); cbn in *;
    congruence.
Qed.

Lemma binding_fields s s' :
  binding s = binding s' →
  beingUsed s = beingUsed s' ∧ pin s = pin s' ∧
  PWM_Value s = PWM_Value s' ∧ PWM_PremapValue s = PWM_PremapValue s'.
Proof. unfold binding. intros [= -> -> -> ->]. done. Qed.

Lemma findPin_bindings p w w' :
  bindings w = bindings w' →
  findPin p (curISRTimerData w) = findPin p (curISRTimerData w').
Proof.
  intros Heq. apply scan_ext. intros j _.
  destruct (binding_fields _ _ (bindings_lookup_total w w' j Heq)) as (-> & -> & _).
  done.
Qed.

Lemma findFree_bindings w w' :
  bindings w = bindings w' →
  findFree (curISRTimerData w) = findFree (curISRTimerData w').
Proof.
  intros Heq. apply scan_ext. intros j _.
  destruct (binding_fields _ _ (bindings_lookup_total w w' j Heq)) as (-> & _).
  done.
Qed.

(** The path through [fakeAnalogWrite] is chosen by the bindings alone. *)
Lemma fakeAnalogWrite_body_bindings p value w w' :
  bindings w = bindings w' →
  fakeAnalogWrite_body p value w = fakeAnalogWrite_body p value w'.
Proof.
  intros Heq. unfold fakeAnalogWrite_body. cbv zeta.
  rewrite (findPin_bindings p w w' Heq), (findFree_bindings w w' Heq).
  destruct (findPin p (curISRTimerData w')) as [i|]; [|done].
  destruct (binding_fields _ _ (bindings_lookup_total w w' i Heq))
    as (_ & _ & -> & ->).
  done.
Qed.

Lemma settled_inv w w' :
  settled w = settled w' →
  bindings w = bindings w' ∧ controlLog (io w) = controlLog (io w').
Proof. unfold settled. by intros [= -> ->]. Qed.

Lemma store_respects i (f : ISRTimerData → ISRTimerData) g :
  (∀ s, binding (f s) = g (binding s)) → respectsSettled (store i f).
Proof.
  intros Hfg w w' [Hb Hc]%settled_inv. unfold settled, bindings, store in *. cbn.
  rewrite !(list_fmap_alter binding f g) by (apply Forall_forall; auto).
  by rewrite Hb, Hc.
Qed.

Lemma emit_respects (e : World → Event) :
  (∀ w w', bindings w = bindings w' → e w = e w') →
  respectsSettled (λ w, emit (e w) w).
Proof.
  intros He w w' [Hb Hc]%settled_inv. unfold settled, bindings, emit in *. cbn.
  rewrite (He w w' Hb), Hb. by destruct (e w'); rewrite Hc.
Qed.

Lemma fakeAnalogWrite_body_respects p value w :
  Forall respectsSettled (fakeAnalogWrite_body p value w).
Proof.
  unfold fakeAnalogWrite_body. cbv zeta.
  assert (Hpwm : ∀ i v, respectsSettled (store i (set_PWM_Value v)))
    by (intros i v; by apply (store_respects _ _ (λ '(u, q, _, m), (u, q, v, m)))).
  assert (Hpre : ∀ i v, respectsSettled (store i (set_PWM_PremapValue v)))
    by (intros i v; by apply (store_respects _ _ (λ '(u, q, d, _), (u, q, d, v)))).
  assert (Hpin : ∀ i v, respectsSettled (store i (set_pin v)))
    by (intros i v; by apply (store_respects _ _ (λ '(u, _, d, m), (u, v, d, m)))).
  assert (Hused : ∀ i v, respectsSettled (store i (set_beingUsed v)))
    by (intros i v; by apply (store_respects _ _ (λ '(_, q, d, m), (v, q, d, m)))).
  assert (Hcnt : ∀ i v, respectsSettled (store i (set_countPWM v)))
    by (intros i v; by apply (store_respects _ _ id)).
  assert (Hconst : ∀ e : Event, respectsSettled (emit e))
    by (intros e; by apply (emit_respects (λ _, e))).
  assert (Hread : ∀ (i : nat) (e : Z → Event),
            respectsSettled
              (λ w', emit (e (PWM_Value (curISRTimerData w' !!! i))) w')).
  { intros i e. apply (emit_respects (λ w', e (PWM_Value (curISRTimerData w' !!! i)))).
    intros w1 w2 Hb.
    by destruct (binding_fields _ _ (bindings_lookup_total w1 w2 i Hb))
      as (_ & _ & -> & _). }
  repeat case_match; repeat constructor; auto;
    first [ apply (Hread _ (SerialUpdate _ _ _)) | apply (Hread _ (SerialAdd _ _ _)) ].
Qed.

Lemma heartbeat_settled w : settled (heartbeat w) = settled w.
Proof.
  unfold settled, bindings. rewrite heartbeat_table. f_equal.
  unfold heartbeat. cbv zeta. by destruct (_ =? _).
Qed.

Lemma doingSomething_settled i w : settled (doingSomething i w) = settled w.
Proof.
  rewrite doingSomething_eq. unfold settled, bindings. cbn.
  rewrite (list_fmap_alter binding advance id) by (by apply Forall_forall).
  rewrite list_alter_id by done. f_equal.
  unfold slotWrite. by repeat case_match.
Qed.

Lemma dispatchSlots_settled lo n w : settled (dispatchSlots lo n w) = settled w.
Proof.
  revert lo w. induction n as [|n IH]; intros lo w; [done|].
  by rewrite dispatchSlots_S, IH, doingSomething_settled.
Qed.

Lemma TimerHandler_settled w : settled (TimerHandler w) = settled w.
Proof. unfold TimerHandler. by rewrite heartbeat_settled, dispatchSlots_settled. Qed.

Lemma iter_TimerHandler_settled n w :
  settled (Nat.iter n TimerHandler w) = settled w.
Proof. induction n as [|n IH]; [done|]. cbn. by rewrite TimerHandler_settled. Qed.

Lemma exec_irq_settled ss sched sched' w w' :
  Forall respectsSettled ss → settled w = settled w' →
  settled (exec_irq sched ss w) = settled (exec_irq sched' ss w').
Proof.
  intros Hss. revert sched sched' w w'.
  induction Hss as [|s ss Hs _ IH]; intros sched sched' w w' Heq; [done|].
  cbn. apply IH, Hs. by rewrite !iter_TimerHandler_settled.
Qed.

Lemma fakeAnalogWrite_settled p value w w' :
  settled w = settled w' →
  settled (fakeAnalogWrite p value w) = settled (fakeAnalogWrite p value w').
Proof.
  intros Heq. unfold fakeAnalogWrite.
  rewrite (fakeAnalogWrite_body_bindings p value w w')
    by (by apply settled_inv in Heq as [? _]).
  apply exec_irq_settled; [apply fakeAnalogWrite_body_respects | done].
Qed.

Lemma run_cons c cs w : run (c :: cs) w = run cs (step c w).
Proof. reflexivity. Qed.

Lemma requestsOf_settled cs w w' :
  settled w = settled w' →
  settled (run cs w) = settled (run (requestsOf cs) w').
Proof.
  revert w w'. induction cs as [|[p value|] cs IH]; intros w w' Heq; [done|..].
  - cbn [requestsOf]. rewrite !run_cons. apply IH. cbn [step].
    by apply fakeAnalogWrite_settled.
  - cbn [requestsOf]. rewrite run_cons. apply IH. cbn [step].
    rewrite TimerHandler_settled. exact Heq.
Qed.

Lemma exec_irq_snoc ss s sched w :
  ∃ n, exec_irq sched (ss ++ [s]) w
       = s (Nat.iter n TimerHandler (exec_irq sched ss w)).
Proof.
  revert sched w. induction ss as [|x ss IH]; intros sched w.
  - by exists (hd 0%nat sched).
  - cbn. apply IH.
Qed.

Lemma settled_length w w' :
  settled w = settled w' →
  length (curISRTimerData w) = length (curISRTimerData w').
Proof.
  intros [Hb _]%settled_inv. unfold bindings in Hb.
  by rewrite <-(length_fmap binding (curISRTimerData w)), Hb, length_fmap.
Qed.

(** ** Preemption and interleaving *)

(** X1.  However the timer interrupt is scheduled between the statements
    of [fakeAnalogWrite], the call ends with the same bindings
    ([beingUsed], [pin], [PWM_Value], [PWM_PremapValue] of every slot) and
    has made the same [pinMode] and [Serial] calls as the call that is not
    preempted; and when it took the update or release path (the pin was
    bound and the value differs from the stored one) it ends with the
    slot's [countPWM] at 0. *)
Theorem preemption_keeps_bindings p value sched w :
  settled (exec_irq sched (fakeAnalogWrite_body p value w) w)
  = settled (fakeAnalogWrite p value w) ∧
  ∀ i, findPin p (curISRTimerData w) = Some i →
       PWM_PremapValue (curISRTimerData w !!! i) ≠ clampValue value →
       countPWM (curISRTimerData
                   (exec_irq sched (fakeAnalogWrite_body p value w) w) !!! i) = 0.
Proof.
  assert (Hsettled : settled (exec_irq sched (fakeAnalogWrite_body p value w) w)
                     = settled (fakeAnalogWrite p value w))
    by (apply exec_irq_settled; [apply fakeAnalogWrite_body_respects | done]).
  split; [done|]. intros i Hfind Hne.
  pose proof (settled_length _ _ Hsettled) as Hlen.
  rewrite fakeAnalogWrite_table in Hlen. revert Hlen.
  unfold requestTable, fakeAnalogWrite_body. cbv zeta.
  rewrite Hfind, (proj2 (Z.eqb_neq _ _) Hne), length_alter.
  match goal with |- context [exec_irq sched (?ss ++ [?s]) w] =>
    destruct (exec_irq_snoc ss s sched w) as [n Hlast] end.
  unfold Stmt in *. rewrite Hlast.
  cbn [store curISRTimerData]. rewrite length_alter. intros Hlen.
  apply findPin_Some in Hfind as (_ & Hused & _).
  assert (Hi : (i < length (curISRTimerData w))%nat).
  { destruct (decide (i < length (curISRTimerData w))%nat); [done|].
    rewrite total_out_of_range in Hused by lia. done. }
  rewrite list_lookup_total_alter_eq by lia. done.
Qed.

Lemma preemption_keeps_bindings_witness :
  let w := run (Request 5 200 :: replicate 50 Tick) initial in
  countPWM (curISRTimerData
              (exec_irq [0; 3; 1; 7]%nat (fakeAnalogWrite_body 5 50 w) w) !!! 0%nat) = 0.
Proof.
  cbv zeta.
  destruct (preemption_keeps_bindings 5 50 [0; 3; 1; 7]%nat
              (run (Request 5 200 :: replicate 50 Tick) initial)) as [_ H].
  apply H; vm_compute; [reflexivity | discriminate].
Defined.

(** X2.  Ticks do not change what a sequence of requests settles: after
    any call sequence, the bindings and the [pinMode] and [Serial] calls
    made are those of its requests alone, run without any tick. *)
Theorem ticks_do_not_change_bindings cs w :
  settled (run cs w) = settled (run (requestsOf cs) w).
Proof. by apply requestsOf_settled. Qed.

(** ** What one request does and does not touch *)

Lemma alter_as_insert (f : ISRTimerData → ISRTimerData) i (t : list ISRTimerData) :
  alter f i t = <[i := f (t !!! i)]> t.
Proof.
  rewrite list_insert_alter. apply list_alter_ext; [|done].
  intros x Hx. by rewrite (list_lookup_total_correct _ _ _ Hx).
Qed.

(** X3.  A call of [fakeAnalogWrite] rewrites at most one slot of the
    table, leaves the statics of the handler alone and makes no
    [digitalWrite]: the level of every pin is what it was. *)
Theorem request_changes_one_slot p value w :
  (∃ i s, curISRTimerData (fakeAnalogWrite p value w)
          = <[i := s]> (curISRTimerData w)) ∧
  toggle (fakeAnalogWrite p value w) = toggle w ∧
  timeRun (fakeAnalogWrite p value w) = timeRun w ∧
  ∀ q, pinLevel (io (fakeAnalogWrite p value w)) q = pinLevel (io w) q.
Proof.
  split_all.
  - rewrite fakeAnalogWrite_table. unfold requestTable.
    destruct (findPin p (curISRTimerData w)) as [i|].
    + eexists i, _. apply alter_as_insert.
    + destruct (findFree (curISRTimerData w)) as [i|].
      * eexists i, _. apply alter_as_insert.
      * exists 0%nat, (curISRTimerData w !!! 0%nat).
        change (curISRTimerData w !!! 0%nat) with (id (curISRTimerData w !!! 0%nat)).
        rewrite <-(alter_as_insert id). symmetry. by apply list_alter_id.
  - apply fakeAnalogWrite_statics.
  - apply fakeAnalogWrite_statics.
  - intros q. apply fakeAnalogWrite_pinLevel.
Qed.

(** ** Requests that take effect *)

Lemma request_stores_clamp p value t i :
  table_ok t → 1 ≤ value →
  findPin p (requestTable p value t) = Some i →
  PWM_Value (requestTable p value t !!! i) = clampValue value.
Proof.
  intros (Hlen & Hslots & Huniq) Hv Hfound.
  apply findPin_Some in Hfound as (Hi & Hu & Hp & _).
  assert (Hlv : 1 ≤ clampValue value ≤ MAX_PWM_VALUE)
    by (unfold clampValue, MAX_PWM_VALUE; case_match; lia).
  revert Hu Hp. unfold requestTable.
  destruct (findPin p t) as [i0|] eqn:Hfind.
  - apply findPin_Some in Hfind as (Hi0 & Hu0 & Hp0 & _).
    rewrite list_lookup_total_alter. case_decide as Hii.
    + intros _ _. destruct (Hslots i0 Hi0) as (_ & Hrange & Hpre & _).
      unfold updateSlot, MAX_PWM_VALUE in *.
      destruct (PWM_PremapValue _ =? clampValue value) eqn:Hsame.
      * apply Z.eqb_eq in Hsame. lia.
      * destruct (0 <=? PWM_Value _) eqn:Hnn; [done|lia].
    + intros Hu Hp. exfalso. apply Hii. split; [|lia].
      apply Huniq; [done..|congruence].
  - pose proof (findPin_None _ _ Hfind) as Hnone.
    destruct (findFree t) as [i0|] eqn:Hfree.
    + rewrite list_lookup_total_alter. case_decide as Hii; [done|].
      intros Hu Hp. by destruct (Hnone i Hi Hu).
    + intros Hu Hp. by destruct (Hnone i Hi Hu).
Qed.

(** X4.  From any state reachable from start-up, a request with a
    non-zero value is never lost: if the pin is bound when
    [fakeAnalogWrite p value] returns, its slot holds
    [PWM_Value = min value MAX_PWM_VALUE], whichever path the call took
    (allocation, update, or suppression as a repetition). *)
Theorem nonzero_request_takes_effect cs p value i :
  1 ≤ value →
  let w := fakeAnalogWrite p value (run cs initial) in
  findPin p (curISRTimerData w) = Some i →
  PWM_Value (curISRTimerData w !!! i) = value `min` MAX_PWM_VALUE.
Proof.
  intros Hv w. unfold w. rewrite fakeAnalogWrite_table. intros Hfound.
  rewrite (request_stores_clamp p value _ i); [|apply run_table_ok, initial_table_ok|done..].
  unfold clampValue. destruct (Z.ltb_spec value MAX_PWM_VALUE); lia.
Qed.

Lemma nonzero_request_takes_effect_witness :
  let w := fakeAnalogWrite 5 77 (run [Request 5 255; Tick; Request 5 0] initial) in
  PWM_Value (curISRTimerData w !!! 0%nat) = 77 `min` MAX_PWM_VALUE.
Proof.
  apply (nonzero_request_takes_effect [Request 5 255; Tick; Request 5 0] 5 77 0).
  - lia.
  - vm_compute. reflexivity.
Defined.

(** X5.  A request with a value of [MAX_PWM_VALUE] or more turns the pin
    fully on: for a pin other than 0 and [LED_BUILTIN] that is bound when
    the call returns, the pin is high after every tick from then on (the
    phase never reaches the stored duty 256, so the dispatcher never
    writes it low). *)
Theorem saturated_request_is_full_on cs p value k :
  MAX_PWM_VALUE ≤ value → p ≠ 0 → p ≠ LED_BUILTIN →
  let w := fakeAnalogWrite p value (run cs initial) in
  is_Some (findPin p (curISRTimerData w)) →
  pinLevel (io (ticks (S k) w)) p = Some true.
Proof.
  intros Hv Hp0 Hp13 w [i Hfound].
  assert (Hw : world_ok w).
  { apply fakeAnalogWrite_world_ok; [unfold MAX_PWM_VALUE in *; lia|].
    apply run_world_ok, initial_world_ok. }
  assert (Hduty : PWM_Value (curISRTimerData w !!! i) = MAX_PWM_VALUE).
  { revert Hfound. unfold w. rewrite fakeAnalogWrite_table. intros Hfound.
    rewrite (request_stores_clamp p value _ i);
      [|apply run_table_ok, initial_table_ok|unfold MAX_PWM_VALUE in *; lia|done].
    unfold clampValue. destruct (Z.ltb_spec value MAX_PWM_VALUE); lia. }
  destruct (bound_pin_shape w p i k Hw Hfound Hp0 Hp13) as [Hcnt ->];
    [rewrite Hduty; unfold MAX_PWM_VALUE; lia|].
  f_equal. apply Z.ltb_lt. rewrite Hduty, Hcnt. by apply Z.mod_pos_bound.
Qed.

Lemma saturated_request_is_full_on_witness :
  pinLevel (io (ticks 300 (fakeAnalogWrite 5 1000 (run [Request 5 10; Tick] initial)))) 5
  = Some true.
Proof.
  apply (saturated_request_is_full_on [Request 5 10; Tick] 5 1000 299).
  - unfold MAX_PWM_VALUE. lia.
  - lia.
  - unfold LED_BUILTIN. lia.
  - exists 0%nat. vm_compute. reflexivity.
Defined.

(** ** Periods *)

(** X6.  The slot table has period [MAX_PWM_VALUE]: from any state
    reachable from start-up, any multiple of 256 ticks brings every slot,
    phase included, back to what it was. *)
Theorem table_period cs m :
  curISRTimerData (ticks (m * 256) (run cs initial))
  = curISRTimerData (run cs initial).
Proof.
  set (w := run cs initial).
  assert (Hok : table_ok (curISRTimerData w))
    by apply run_table_ok, initial_table_ok.
  pose proof (run_table_ok (replicate (m * 256) Tick) w Hok) as (Hlen' & _).
  pose proof Hok as (Hlen & Hslots & _).
  apply list_eq. intros j.
  destruct (decide (j < NUMBER_ISR_TIMERS)%nat) as [Hj|Hj].
  - rewrite !list_lookup_lookup_total_lt by (unfold ticks; lia). f_equal.
    rewrite ticks_slot by done. destruct (Hslots j Hj) as (Hc & _).
    replace (Z.of_nat (m * 256)) with (Z.of_nat m * MAX_PWM_VALUE)
      by (unfold MAX_PWM_VALUE; lia).
    rewrite Z.mod_add, Z.mod_small by (unfold MAX_PWM_VALUE in *; lia).
    apply set_countPWM_id.
  - rewrite !lookup_ge_None_2 by (unfold ticks; lia). done.
Qed.

(** ** Which pins the table holds *)

Lemma requestedPins_snoc cs c :
  requestedPins (cs ++ [c])
  = requestedPins cs ++ match c with Request p _ => [to_uint16 p] | Tick => [] end.
Proof.
  induction cs as [|[p value|] cs IH]; cbn.
  - destruct c; done.
  - by rewrite IH.
  - done.
Qed.

Lemma tickCount_snoc cs c :
  tickCount (cs ++ [c])
  = tickCount cs + match c with Request _ _ => 0 | Tick => 1 end.
Proof.
  induction cs as [|[p value|] cs IH]; cbn [app tickCount].
  - destruct c; done.
  - done.
  - rewrite IH. lia.
Qed.

Lemma tickCount_nonneg cs : 0 ≤ tickCount cs.
Proof. induction cs as [|[p value|] cs IH]; cbn [tickCount]; lia. Qed.

Lemma TimerHandler_used_pin w j :
  beingUsed (curISRTimerData (TimerHandler w) !!! j) = beingUsed (curISRTimerData w !!! j) ∧
  pin (curISRTimerData (TimerHandler w) !!! j) = pin (curISRTimerData w !!! j).
Proof.
  destruct (binding_fields _ _
              (bindings_lookup_total _ _ j (proj1 (settled_inv _ _ (TimerHandler_settled w)))))
    as (-> & -> & _). done.
Qed.

(** Every in-use slot holds a pin that some request named. *)
Lemma used_pins_requested cs j :
  beingUsed (curISRTimerData (run cs initial) !!! j) = true →
  pin (curISRTimerData (run cs initial) !!! j) ∈ requestedPins cs.
Proof.
  revert j. induction cs as [|c cs IH] using rev_ind; intros j.
  - change (curISRTimerData (run [] initial)) with (replicate 16 zeroSlot).
    rewrite list_lookup_total_alt.
    destruct (replicate 16 zeroSlot !! j) as [s|] eqn:Hs; [|done].
    apply lookup_replicate in Hs as [-> _]. done.
  - rewrite run_snoc, requestedPins_snoc, elem_of_app.
    destruct c as [p value|]; cbn [step].
    + rewrite fakeAnalogWrite_table. unfold requestTable.
      destruct (findPin _ _) as [i|].
      * rewrite list_lookup_total_alter. case_decide as Hij.
        -- destruct Hij as [-> _]. unfold updateSlot.
           repeat case_match; cbn; intros Hu; try done; left; by apply IH.
        -- intros Hu. left. by apply IH.
      * destruct (findFree _) as [i|].
        -- rewrite list_lookup_total_alter. case_decide as Hij.
           ++ intros _. right. cbn. apply elem_of_cons. by left.
           ++ intros Hu. left. by apply IH.
        -- intros Hu. left. by apply IH.
    + destruct (TimerHandler_used_pin (run cs initial) j) as [-> ->].
      intros Hu. left. by apply IH.
Qed.

(** ** The heartbeat *)

Lemma heartbeat_arith n :
  0 ≤ n →
  (if to_uint32 (n `mod` togglePeriod + 1) =? togglePeriod
   then (n + 1) `mod` togglePeriod = 0 ∧ (n + 1) `div` togglePeriod = n `div` togglePeriod + 1
   else (n + 1) `mod` togglePeriod = to_uint32 (n `mod` togglePeriod + 1) ∧
        (n + 1) `div` togglePeriod = n `div` togglePeriod).
Proof.
  intros Hn. change togglePeriod with 5000.
  pose proof (Z.mod_pos_bound n 5000 ltac:(lia)) as Hr.
  pose proof (Z.div_mod n 5000 ltac:(lia)) as Hdm.
  assert (Hu : to_uint32 (n `mod` 5000 + 1) = n `mod` 5000 + 1)
    by (unfold to_uint32; apply Z.mod_small; lia).
  rewrite Hu. destruct (Z.eqb_spec (n `mod` 5000 + 1) 5000) as [Heq|Hne].
  - split.
    + symmetry. apply (Z.mod_unique _ _ (n `div` 5000 + 1)); lia.
    + symmetry. apply (Z.div_unique _ _ _ 0); lia.
  - split.
    + symmetry. apply (Z.mod_unique _ _ (n `div` 5000)); lia.
    + symmetry. apply (Z.div_unique _ _ _ (n `mod` 5000 + 1)); lia.
Qed.

Lemma heartbeat_step w n :
  0 ≤ n →
  timeRun w = n `mod` togglePeriod → toggle w = Z.odd (n `div` togglePeriod) →
  timeRun (heartbeat w) = (n + 1) `mod` togglePeriod ∧
  toggle (heartbeat w) = Z.odd ((n + 1) `div` togglePeriod) ∧
  pinLevel (io (heartbeat w)) LED_BUILTIN
  = if (n + 1) `mod` togglePeriod =? 0
    then Some (Z.even ((n + 1) `div` togglePeriod))
    else pinLevel (io w) LED_BUILTIN.
Proof.
  intros Hn Htime Htog. pose proof (heartbeat_arith n Hn) as Har.
  unfold heartbeat. cbv zeta. fold togglePeriod. rewrite Htime, Htog.
  destruct (to_uint32 (n `mod` togglePeriod + 1) =? togglePeriod) eqn:Hfire;
    destruct Har as [Hmod Hdiv]; cbn [timeRun toggle io pinLevel];
    rewrite Hmod, Hdiv.
  - rewrite !Z.eqb_refl, Z.odd_add, Z.even_add, <-Z.negb_odd.
    by destruct (Z.odd _).
  - apply Z.eqb_neq in Hfire. rewrite <-Hmod in Hfire.
    pose proof (Z.mod_pos_bound (n + 1) togglePeriod ltac:(done)) as Hr.
    pose proof (Z.mod_pos_bound n togglePeriod ltac:(done)) as Hr0.
    assert (Hnz : (n + 1) `mod` togglePeriod ≠ 0).
    { rewrite Hmod. unfold to_uint32. rewrite Z.mod_small; [lia|].
      change togglePeriod with 5000 in *. lia. }
    rewrite Hmod in Hnz. by rewrite (proj2 (Z.eqb_neq _ _) Hnz).
Qed.

(** X7.  The heartbeat runs on the number of ticks alone.  After any call
    sequence from start-up with [n] ticks in it, [timeRun] is [n] modulo
    the toggle period (5000 ticks, half a second at 10 kHz) and [toggle]
    is the parity of the completed periods; requests never disturb it.
    If no request names [LED_BUILTIN], the LED has not been written
    before tick 5000 and afterwards shows low, high, low, ... for one
    period each, starting low. *)
Theorem heartbeat_schedule cs :
  let n := tickCount cs in
  let w := run cs initial in
  timeRun w = n `mod` togglePeriod ∧
  toggle w = Z.odd (n `div` togglePeriod) ∧
  (LED_BUILTIN ∉ requestedPins cs →
   pinLevel (io w) LED_BUILTIN
   = if n <? togglePeriod then None else Some (Z.even (n `div` togglePeriod))).
Proof.
  cbv zeta. induction cs as [|c cs IH] using rev_ind.
  { split_all; [reflexivity..|]. intros _. reflexivity. }
  destruct IH as (Htime & Htog & Hled).
  rewrite run_snoc, tickCount_snoc, requestedPins_snoc.
  destruct c as [p value|]; cbn [step].
  - rewrite Z.add_0_r. destruct (fakeAnalogWrite_statics (to_uint16 p) (to_uint16 value)
                                   (run cs initial)) as [-> ->].
    rewrite fakeAnalogWrite_pinLevel. split_all; [done..|].
    intros Hnot. apply Hled. intros Hin. apply Hnot, elem_of_app. by left.
  - rewrite app_nil_r.
    destruct (dispatchSlots_statics 0 NUMBER_ISR_TIMERS (run cs initial))
      as (Htog1 & Htime1 & _).
    rewrite <-Htime1 in Htime. rewrite <-Htog1 in Htog.
    destruct (heartbeat_step _ _ (tickCount_nonneg cs) Htime Htog)
      as (Htime' & Htog' & Hled').
    unfold TimerHandler. split_all; [done..|].
    intros Hnot. rewrite Hled'.
    rewrite dispatchSlots_level_other, Hled; [|done|].
    + pose proof (tickCount_nonneg cs) as Hn.
      pose proof (Z.mod_pos_bound (tickCount cs + 1) togglePeriod ltac:(done)) as Hr.
      pose proof (Z.div_mod (tickCount cs + 1) togglePeriod ltac:(done)) as Hdm.
      pose proof (Z.div_pos (tickCount cs + 1) togglePeriod ltac:(lia) ltac:(done)) as Hq.
      pose proof (heartbeat_arith (tickCount cs) Hn) as Har.
      destruct (to_uint32 _ =? togglePeriod); destruct Har as [Hmod Hdiv].
      * rewrite Hmod, Z.eqb_refl. rewrite Hmod in Hdm.
        rewrite (proj2 (Z.ltb_ge _ _)); [done|].
        change togglePeriod with 5000 in *.
        pose proof (Z.div_pos (tickCount cs) 5000 Hn ltac:(done)). lia.
      * rewrite Hdiv.
        assert (Hnz : (tickCount cs + 1) `mod` togglePeriod ≠ 0).
        { rewrite Hmod. unfold to_uint32.
          pose proof (Z.mod_pos_bound (tickCount cs) togglePeriod ltac:(done)).
          change togglePeriod with 5000 in *. rewrite Z.mod_small; lia. }
        rewrite (proj2 (Z.eqb_neq _ _) Hnz).
        change togglePeriod with 5000 in *.
        destruct (Z.ltb_spec (tickCount cs) 5000), (Z.ltb_spec (tickCount cs + 1) 5000);
          try done; try lia.
    + intros j _ Hu _ Hpin. apply Hnot. rewrite <-Hpin. by apply used_pins_requested.
Qed.

Lemma heartbeat_schedule_witness :
  pinLevel (io (run (Request 5 100 :: replicate (Z.to_nat 12345) Tick) initial))
           LED_BUILTIN
  = Some true.
Proof.
  destruct (heartbeat_schedule (Request 5 100 :: replicate (Z.to_nat 12345) Tick))
    as (_ & _ & H).
  rewrite H; [by vm_compute|].
  vm_compute. intros Hin. apply list_elem_of_singleton in Hin. discriminate.
Defined.

(** ** Pins the engine does not own *)

Lemma fakeAnalogWrite_untouched p value w q :
  p ≠ q →
  Forall (λ e, touches q e = false) (io w) →
  Forall (λ e, touches q e = false) (io (fakeAnalogWrite p value w)).
Proof.
  intros Hpq Hio. apply Z.eqb_neq in Hpq.
  unfold fakeAnalogWrite, fakeAnalogWrite_body.
  repeat (case_match; cbn; try done); repeat (constructor; try done).
Qed.

Lemma doingSomething_untouched i w q :
  (beingUsed (curISRTimerData w !!! i) = true → pin (curISRTimerData w !!! i) ≠ q) →
  Forall (λ e, touches q e = false) (io w) →
  Forall (λ e, touches q e = false) (io (doingSomething i w)).
Proof.
  intros Hq Hio. rewrite doingSomething_eq. cbn. unfold slotWrite.
  destruct (beingUsed _); [|done]. specialize (Hq eq_refl). apply Z.eqb_neq in Hq.
  repeat (case_match; cbn; try done); by constructor.
Qed.

Lemma dispatchSlots_untouched n lo w q :
  (∀ j, beingUsed (curISRTimerData w !!! j) = true → pin (curISRTimerData w !!! j) ≠ q) →
  Forall (λ e, touches q e = false) (io w) →
  Forall (λ e, touches q e = false) (io (dispatchSlots lo n w)).
Proof.
  revert lo w. induction n as [|n IH]; intros lo w Hq Hio; [done|].
  rewrite dispatchSlots_S. apply IH.
  - intros j. rewrite doingSomething_eq. cbn.
    rewrite list_lookup_total_alter. case_decide; [|apply Hq].
    destruct_and?; subst. cbn. apply Hq.
  - apply doingSomething_untouched; [apply Hq | done].
Qed.

Lemma heartbeat_untouched w q :
  q ≠ LED_BUILTIN →
  Forall (λ e, touches q e = false) (io w) →
  Forall (λ e, touches q e = false) (io (heartbeat w)).
Proof.
  intros Hq13 Hio. unfold heartbeat. cbv zeta. destruct (_ =? _); cbn [io]; [|done].
  constructor; [|done]. cbn [touches]. apply Z.eqb_neq. congruence.
Qed.

Lemma TimerHandler_untouched w q :
  q ≠ LED_BUILTIN →
  (∀ j, beingUsed (curISRTimerData w !!! j) = true → pin (curISRTimerData w !!! j) ≠ q) →
  Forall (λ e, touches q e = false) (io w) →
  Forall (λ e, touches q e = false) (io (TimerHandler w)).
Proof.
  intros Hq13 Hq Hio. unfold TimerHandler.
  by apply heartbeat_untouched, dispatchSlots_untouched.
Qed.

(** X8.  The engine touches only the pins it was asked for.  After any
    call sequence from start-up, a pin other than [LED_BUILTIN] that no
    request has named has received neither a [digitalWrite] nor a
    [pinMode]. *)
Theorem unrequested_pin_untouched cs q :
  q ≠ LED_BUILTIN → q ∉ requestedPins cs →
  Forall (λ e, touches q e = false) (io (run cs initial)).
Proof.
  intros Hq13. induction cs as [|c cs IH] using rev_ind; intros Hnot.
  - change (io (run [] initial)) with [PinModeOutput LED_BUILTIN].
    constructor; [|done]. cbn [touches]. apply Z.eqb_neq. congruence.
  - rewrite requestedPins_snoc, not_elem_of_app in Hnot. destruct Hnot as [Hnot Hc].
    rewrite run_snoc. destruct c as [p value|]; cbn [step].
    + apply fakeAnalogWrite_untouched; [|by apply IH].
      intros Heq. apply Hc, elem_of_cons. by left.
    + apply TimerHandler_untouched; [done| |by apply IH].
      intros j Hu Hpin. apply Hnot. rewrite <-Hpin. by apply used_pins_requested.
Qed.

Lemma unrequested_pin_untouched_witness :
  Forall (λ e, touches 7 e = false)
         (io (run [Request 5 100; Tick; Request 9 3; Tick; Tick] initial)).
Proof.
  apply (unrequested_pin_untouched [Request 5 100; Tick; Request 9 3; Tick; Tick] 7).
  - unfold LED_BUILTIN. lia.
  - vm_compute. intros Hin.
    repeat (apply elem_of_cons in Hin as [Hin|Hin]; [discriminate|]).
    by apply elem_of_nil in Hin.
Defined.

(** ** The table as a list of pins *)

Lemma firstPins_snoc ps p :
  firstPins (ps ++ [p])
  = if decide (p ∈ firstPins ps) then firstPins ps
    else if decide (length (firstPins ps) < NUMBER_ISR_TIMERS)%nat
         then firstPins ps ++ [p] else firstPins ps.
Proof. unfold firstPins. by rewrite foldl_snoc. Qed.

Lemma firstPins_NoDup ps :
  NoDup (firstPins ps) ∧ (length (firstPins ps) ≤ NUMBER_ISR_TIMERS)%nat.
Proof.
  induction ps as [|p ps [Hnd Hlen]] using rev_ind.
  - split; [constructor|cbn; lia].
  - rewrite firstPins_snoc. repeat case_decide; try done.
    split; [|rewrite length_app; cbn; lia].
    apply NoDup_app. split_all; [done| |apply NoDup_singleton].
    intros x Hx Hp. apply list_elem_of_singleton in Hp. by subst.
Qed.

Lemma usedPins_lookup (t : list ISRTimerData) j :
  (j < length t)%nat →
  usedPins t !! j = Some (beingUsed (t !!! j), pin (t !!! j)).
Proof.
  intros Hj. unfold usedPins.
  by rewrite list_lookup_fmap, (list_lookup_lookup_total_lt t j Hj).
Qed.

Lemma usedPins_bindings w w' :
  bindings w = bindings w' →
  usedPins (curISRTimerData w) = usedPins (curISRTimerData w').
Proof.
  intros Hb. unfold usedPins, bindings in *.
  assert (Hview : ∀ t : list ISRTimerData,
            (λ s, (beingUsed s, pin s)) <$> t
            = (λ b : bool * Z * Z * Z, (b.1.1.1, b.1.1.2)) <$> (binding <$> t))
    by (intros t; by rewrite <-list_fmap_compose).
  by rewrite !Hview, Hb.
Qed.

Lemma tableShape_length ps :
  (length ps ≤ NUMBER_ISR_TIMERS)%nat → length (tableShape ps) = NUMBER_ISR_TIMERS.
Proof.
  intros Hlen. unfold tableShape.
  rewrite length_app, length_fmap, length_replicate. lia.
Qed.

Lemma shaped_used (t : list ISRTimerData) ps j :
  usedPins t = tableShape ps → (length ps ≤ NUMBER_ISR_TIMERS)%nat →
  (j < NUMBER_ISR_TIMERS)%nat →
  if decide (j < length ps)%nat
  then beingUsed (t !!! j) = true ∧ ps !! j = Some (pin (t !!! j))
  else beingUsed (t !!! j) = false.
Proof.
  intros Hshape Hlen Hj.
  assert (Hlt : length t = NUMBER_ISR_TIMERS).
  { rewrite <-(tableShape_length ps Hlen), <-Hshape. unfold usedPins.
    by rewrite length_fmap. }
  pose proof (usedPins_lookup t j ltac:(lia)) as Hlook.
  rewrite Hshape in Hlook. unfold tableShape in Hlook.
  case_decide as Hjk.
  - rewrite lookup_app_l in Hlook by (by rewrite length_fmap).
    rewrite list_lookup_fmap in Hlook.
    destruct (ps !! j) as [x|]; cbn in Hlook; [|done].
    injection Hlook as <- <-. done.
  - rewrite lookup_app_r in Hlook by (rewrite length_fmap; lia).
    apply lookup_replicate in Hlook as [Heq _]. by injection Heq as <- _.
Qed.

Lemma usedPins_alter_keep (f : ISRTimerData → ISRTimerData) i (t : list ISRTimerData) :
  Forall (λ s, beingUsed (f s) = beingUsed s ∧ pin (f s) = pin s) t →
  usedPins (alter f i t) = usedPins t.
Proof.
  intros Hkeep. unfold usedPins.
  rewrite (list_fmap_alter _ f id); [by apply list_alter_id|].
  eapply Forall_impl; [exact Hkeep|]. by intros s [-> ->].
Qed.

Lemma usedPins_alloc p lv i (t : list ISRTimerData) :
  usedPins (alter (allocSlot p lv) i t) = <[i := (true, p)]> (usedPins t).
Proof.
  unfold usedPins. rewrite list_insert_alter.
  apply (list_fmap_alter _ (allocSlot p lv) (λ _, (true, p))).
  by apply Forall_forall.
Qed.

Lemma tableShape_snoc ps p :
  (length ps < NUMBER_ISR_TIMERS)%nat →
  <[length ps := (true, p)]> (tableShape ps) = tableShape (ps ++ [p]).
Proof.
  intros Hlen. unfold tableShape.
  rewrite insert_app_r_alt by (by rewrite length_fmap).
  rewrite length_fmap, Nat.sub_diag, fmap_app, length_app, <-app_assoc. cbn [length].
  replace (NUMBER_ISR_TIMERS - length ps)%nat
    with (S (NUMBER_ISR_TIMERS - (length ps + 1)))%nat by lia.
  done.
Qed.

Lemma requestTable_shape p value t ps :
  table_ok t → usedPins t = tableShape ps →
  NoDup ps → (length ps ≤ NUMBER_ISR_TIMERS)%nat →
  usedPins (requestTable p value t)
  = tableShape (if decide (p ∈ ps) then ps
                else if decide (length ps < NUMBER_ISR_TIMERS)%nat
                     then ps ++ [p] else ps).
Proof.
  intros Hok Hshape Hnd Hlen. pose proof Hok as (Hlt & Hslots & _).
  unfold requestTable.
  destruct (findPin p t) as [i|] eqn:Hfind.
  - apply findPin_Some in Hfind as (Hi & Hu & Hp & _).
    pose proof (shaped_used t ps i Hshape Hlen Hi) as Hsi.
    case_decide as Hik; [|congruence]. destruct Hsi as [_ Hpi].
    rewrite Hp in Hpi. rewrite decide_True by (by eapply list_elem_of_lookup_2).
    rewrite usedPins_alter_keep; [done|].
    apply Forall_slots. intros j Hj. destruct (Hslots j ltac:(lia)) as (_ & Hv & _).
    unfold updateSlot. repeat case_match; cbn; try done; lia.
  - pose proof (findPin_None _ _ Hfind) as Hnone.
    rewrite decide_False.
    2:{ intros [j Hj]%list_elem_of_lookup_1.
        pose proof (lookup_lt_Some _ _ _ Hj) as Hjk.
        pose proof (shaped_used t ps j Hshape Hlen ltac:(lia)) as Hsj.
        rewrite decide_True in Hsj by done. destruct Hsj as [Hu Hpj].
        apply (Hnone j); [lia|done|congruence]. }
    case_decide as Hroom.
    + assert (Hfree : findFree t = Some (length ps)).
      { apply scan_first; [lia| |].
        - pose proof (shaped_used t ps (length ps) Hshape Hlen Hroom) as Hs.
          rewrite decide_False in Hs by lia. by rewrite Hs.
        - intros j Hj.
          pose proof (shaped_used t ps j Hshape Hlen ltac:(lia)) as Hs.
          rewrite decide_True in Hs by lia. destruct Hs as [-> _]. done. }
      rewrite Hfree, usedPins_alloc, Hshape. by apply tableShape_snoc.
    + destruct (findFree t) as [i|] eqn:Hfree; [|done].
      apply findFree_Some in Hfree as (Hi & Hu & _).
      pose proof (shaped_used t ps i Hshape Hlen Hi) as Hs.
      rewrite decide_True in Hs by lia. destruct Hs as [Hu' _]. congruence.
Qed.

(** X9.  The table is the list of the first sixteen distinct pins
    requested.  After any call sequence from start-up, the slots hold, in
    table order, the distinct pins the requests have named, each in the
    slot of its first appearance, up to the capacity; these slots are in
    use and all the others are free with [pin = 0].  In particular no pin
    is held by two slots. *)
Theorem table_holds_first_pins cs :
  usedPins (curISRTimerData (run cs initial))
  = tableShape (firstPins (requestedPins cs)) ∧
  NoDup (firstPins (requestedPins cs)) ∧
  (length (firstPins (requestedPins cs)) ≤ NUMBER_ISR_TIMERS)%nat.
Proof.
  split; [|apply firstPins_NoDup].
  induction cs as [|c cs IH] using rev_ind; [reflexivity|].
  rewrite run_snoc, requestedPins_snoc.
  destruct (firstPins_NoDup (requestedPins cs)) as [Hnd Hlen].
  destruct c as [p value|]; cbn [step].
  - rewrite fakeAnalogWrite_table, firstPins_snoc.
    apply requestTable_shape; [apply run_table_ok, initial_table_ok|done..].
  - rewrite app_nil_r, <-IH. apply usedPins_bindings.
    by destruct (settled_inv _ _ (TimerHandler_settled (run cs initial))).
Qed.

(** ** The demo loop *)

Lemma scan_all_false c lo fuel :
  (∀ j, (lo ≤ j < lo + fuel)%nat → c j = false) → scan c lo fuel = None.
Proof.
  intros Hall. destruct (scan c lo fuel) as [i|] eqn:Hs; [|done].
  apply scan_Some in Hs as (Hr & Hc & _). rewrite Hall in Hc by done. done.
Qed.

Lemma demoSlot_lookup v (ps : list Z) l2 j :
  (j < length ps)%nat →
  ((demoSlot v <$> ps) ++ l2) !!! j = demoSlot v (ps !!! j).
Proof.
  intros Hj. rewrite lookup_total_app_l by (by rewrite length_fmap).
  by apply list_lookup_total_fmap.
Qed.

Lemma round_update v u done rest w :
  0 ≤ u → 0 ≤ v < MAX_PWM_VALUE →
  NoDup (done ++ rest) → Forall (λ p, 0 ≤ p < 65536) rest →
  (length (done ++ rest) ≤ NUMBER_ISR_TIMERS)%nat →
  curISRTimerData w = (demoSlot v <$> done) ++ (demoSlot u <$> rest) →
  curISRTimerData (run ((λ p, Request p v) <$> rest) w)
  = demoSlot v <$> (done ++ rest).
Proof.
  intros Hu Hv. revert done w.
  induction rest as [|p rest IH]; intros done w Hnd Hrange Hlen Ht.
  - cbn. by rewrite Ht, !app_nil_r.
  - rewrite fmap_cons, run_cons. cbn [step].
    apply Forall_cons in Hrange as [Hp Hrange].
    assert (Hp16 : to_uint16 p = p) by (unfold to_uint16; apply Z.mod_small; lia).
    assert (Hv16 : to_uint16 v = v)
      by (unfold to_uint16, MAX_PWM_VALUE in *; apply Z.mod_small; lia).
    assert (Hcl : clampValue v = v)
      by (unfold clampValue, MAX_PWM_VALUE in *; case_match; lia).
    rewrite Hp16, Hv16.
    rewrite length_app in Hlen. cbn [length] in Hlen.
    assert (Hfind : findPin p (curISRTimerData w) = Some (length done)).
    { apply scan_first; [lia| |].
      - rewrite Ht, fmap_cons, list_lookup_total_middle by (by rewrite length_fmap).
        cbn. by rewrite Z.eqb_refl.
      - intros j Hj. rewrite Ht, demoSlot_lookup by lia. cbn.
        apply Z.eqb_neq. intros Heq.
        apply NoDup_app in Hnd as (_ & Hdisj & _).
        apply (Hdisj p); [|apply elem_of_cons; by left].
        rewrite <-Heq. apply list_elem_of_lookup_total_2. lia. }
    replace (done ++ p :: rest) with ((done ++ [p]) ++ rest) in * by (by rewrite <-app_assoc).
    apply IH; [done..|rewrite !length_app; cbn [length]; lia|].
    rewrite fakeAnalogWrite_table. unfold requestTable. rewrite Hfind, Hcl, Ht.
    rewrite alter_app_r_alt by (by rewrite length_fmap).
    rewrite length_fmap, Nat.sub_diag, fmap_app, <-app_assoc. cbn.
    do 2 f_equal. unfold updateSlot, demoSlot. cbn.
    destruct (Z.eqb_spec u v) as [->|_]; [done|].
    by rewrite (proj2 (Z.leb_le 0 u) Hu).
Qed.

Lemma round_alloc done rest w :
  NoDup (done ++ rest) → Forall (λ p, 0 ≤ p < 65536) rest →
  (length (done ++ rest) ≤ NUMBER_ISR_TIMERS)%nat →
  curISRTimerData w
  = (demoSlot 0 <$> done) ++ replicate (NUMBER_ISR_TIMERS - length done) zeroSlot →
  curISRTimerData (run ((λ p, Request p 0) <$> rest) w)
  = (demoSlot 0 <$> (done ++ rest))
    ++ replicate (NUMBER_ISR_TIMERS - length (done ++ rest)) zeroSlot.
Proof.
  revert done w. induction rest as [|p rest IH]; intros done w Hnd Hrange Hlen Ht.
  - cbn. by rewrite Ht, !app_nil_r.
  - rewrite fmap_cons, run_cons. cbn [step].
    apply Forall_cons in Hrange as [Hp Hrange].
    assert (Hp16 : to_uint16 p = p) by (unfold to_uint16; apply Z.mod_small; lia).
    rewrite Hp16. change (to_uint16 0) with 0.
    rewrite length_app in Hlen. cbn [length] in Hlen.
    set (k := length done) in *.
    assert (Hfree_tail : ∀ j, (k ≤ j)%nat → curISRTimerData w !!! j = zeroSlot).
    { intros j Hj. rewrite Ht, list_lookup_total_alt.
      rewrite lookup_app_r by (rewrite length_fmap; fold k; lia).
      destruct (replicate _ zeroSlot !! _) as [s|] eqn:Hs; [|done].
      by apply lookup_replicate in Hs as [-> _]. }
    assert (Hfind : findPin p (curISRTimerData w) = None).
    { apply scan_all_false. intros j Hj.
      destruct (decide (j < k)%nat) as [Hjk|Hjk].
      - rewrite Ht, demoSlot_lookup by done. cbn.
        apply Z.eqb_neq. intros Heq.
        apply NoDup_app in Hnd as (_ & Hdisj & _).
        apply (Hdisj p); [|apply elem_of_cons; by left].
        rewrite <-Heq. by apply list_elem_of_lookup_total_2.
      - rewrite Hfree_tail by lia. done. }
    assert (Hfree : findFree (curISRTimerData w) = Some k).
    { apply scan_first; [lia| |].
      - by rewrite Hfree_tail.
      - intros j Hj. by rewrite Ht, demoSlot_lookup by lia. }
    replace (done ++ p :: rest) with ((done ++ [p]) ++ rest) in * by (by rewrite <-app_assoc).
    apply IH; [done..|rewrite !length_app; cbn [length]; lia|].
    rewrite fakeAnalogWrite_table. unfold requestTable. rewrite Hfind, Hfree, Ht.
    rewrite alter_app_r_alt by (rewrite length_fmap; done).
    rewrite length_fmap. fold k. rewrite Nat.sub_diag, fmap_app, <-app_assoc, length_app.
    cbn [length]. fold k.
    replace (NUMBER_ISR_TIMERS - k)%nat with (S (NUMBER_ISR_TIMERS - (k + 1)))%nat by lia.
    done.
Qed.

Lemma demoRounds_S pins m :
  demoRounds pins (S m)
  = demoRounds pins m ++ loopRound pins (m `mod` roundsPerLoop).
Proof.
  unfold demoRounds. rewrite seq_S, fmap_app, concat_app. cbn.
  by rewrite app_nil_r.
Qed.

Lemma demoRounds_table pins m :
  length pins = NUMBER_ISR_TIMERS → NoDup pins →
  Forall (λ p, 0 ≤ p < 65536) pins →
  curISRTimerData (run (demoRounds pins (S m)) initial)
  = demoSlot (Z.of_nat (m `mod` roundsPerLoop) * DIVIDER) <$> pins.
Proof.
  intros Hlen Hnd Hrange.
  assert (Hval : ∀ r, 0 ≤ Z.of_nat (r `mod` roundsPerLoop) * DIVIDER < MAX_PWM_VALUE).
  { intros r. pose proof (Nat.mod_upper_bound r roundsPerLoop ltac:(done)) as Hr.
    change roundsPerLoop with 52%nat in *. unfold DIVIDER, MAX_PWM_VALUE. lia. }
  induction m as [|m IH]; rewrite demoRounds_S, run_app.
  - change (run (demoRounds pins 0) initial) with initial.
    rewrite (round_alloc [] pins); cbn [app length];
      [|done|done|by rewrite Hlen|by vm_compute].
    by rewrite Hlen, Nat.sub_diag, app_nil_r.
  - apply (round_update _ (Z.of_nat (m `mod` roundsPerLoop) * DIVIDER) [] pins);
      [apply Hval|apply Hval|done|done|cbn; lia|].
    by rewrite IH.
Qed.

(** X10.  The demo loop of the sketch finds every step of its ramp stored.
    Let a call sequence from start-up contain, among any number of ticks
    placed anywhere, the requests of the first [m + 1] rounds of [loop()]
    for sixteen distinct pins.  Then slot [j] is bound to the [j]-th pin
    and holds the value of the last round, [(m mod 52) * DIVIDER], as
    [PWM_Value] and as [PWM_PremapValue]: no request of the loop is lost,
    on the first pass or on any later one. *)
Theorem demo_rounds_take_effect pins m cs :
  length pins = NUMBER_ISR_TIMERS → NoDup pins →
  Forall (λ p, 0 ≤ p < 65536) pins →
  requestsOf cs = demoRounds pins (S m) →
  bindings (run cs initial)
  = (λ p, (true, p, Z.of_nat (m `mod` roundsPerLoop) * DIVIDER,
           Z.of_nat (m `mod` roundsPerLoop) * DIVIDER)) <$> pins.
Proof.
  intros Hlen Hnd Hrange Hreq.
  destruct (settled_inv _ _ (requestsOf_settled cs initial initial eq_refl)) as [-> _].
  rewrite Hreq. unfold bindings. rewrite demoRounds_table by done.
  by rewrite <-list_fmap_compose.
Qed.

Lemma demo_rounds_take_effect_witness :
  bindings (run (Tick :: loopRound megaPins 0 ++ [Tick; Tick]
                 ++ loopRound megaPins 1 ++ [Tick]) initial)
  = (λ p, (true, p, 5, 5)) <$> megaPins.
Proof.
  apply (demo_rounds_take_effect megaPins 1).
  - reflexivity.
  - apply (bool_decide_unpack _). vm_compute. exact I.
  - repeat constructor; lia.
  - vm_compute. reflexivity.
Defined.
